(** * llamalend-interface: the pool and loan aggregation layer

    A shallow embedding of [getAllpools] (with its two per-pool enrichments
    [getPoolAddlInfo] and [getAdminPoolInfo]) and of [getLoans],
    [useGetLoans] and [getLoansToLiquidate], followed by the properties the
    specification states about them.

    Conventions of the embedding.
    - Every [async] function is a computation in the monad [M]: it threads
      the log of outbound calls and the number of clock readings taken so
      far, and either returns a value or throws a [JsError].  The answers
      of the outside world (indexer, chain, oracle, clock, chain
      configuration) are the fields of a [World].
    - A [Promise.all] batch is sequenced in list order.
    - JavaScript Numbers.  Timestamps (in seconds or milliseconds) and
      NFT counts are exact integers, [Z]: they stay far below 2^53, where
      binary64 arithmetic on integers is exact.  Amounts in wei, the rates
      applied to them and everything computed from them are binary64
      values, [float], with the IEEE 754 operations of [PrimFloat]
      (round to nearest, ties to even, as ECMAScript prescribes).
    - The indexer's [BigInt] scalars (decimal strings on the wire) and the
      [uint256] values read from contracts are kept by value, as [N];
      where the code renders or parses them the decimal strings are
      built and parsed for real. *)

From Stdlib Require Import ZArith NArith QArith List String Ascii Bool Lia.
From Stdlib Require Import Sorted Permutation.
From Stdlib Require Import DecimalString DecimalPos DecimalZ.
From Stdlib Require Import PrimFloat SpecFloat FloatOps.
Import ListNotations.

Local Open Scope string_scope.
Local Open Scope Z_scope.

(** ** JavaScript primitives used by the two modules *)

Module JS.

(** [!!s] for a value of type [string | undefined]. *)
Definition truthy (s : option string) : bool :=
  match s with
  | Some EmptyString => false
  | Some _ => true
  | None => false
  end.

(** The value of [s] on the branch where [s] has tested truthy. *)
Definition whenTruthy (s : option string) : option string :=
  if truthy s then s else None.

(** [!!n] for a value of type [number | null | undefined]. *)
Definition truthyNum (n : option Z) : bool :=
  match n with
  | Some 0 => false
  | Some _ => true
  | None => false
  end.

(** [String.prototype.toLowerCase], on the ASCII range. *)
Definition lowerChar (c : ascii) : ascii :=
  let n := nat_of_ascii c in
  if (andb (65 <=? n) (n <=? 90))%nat then ascii_of_nat (n + 32) else c.

Fixpoint toLowerCase (s : string) : string :=
  match s with
  | EmptyString => EmptyString
  | String c r => String (lowerChar c) (toLowerCase r)
  end.

(** [`${s?.toLowerCase()}`] inside a template literal. *)
Definition lowerOrUndefined (s : option string) : string :=
  match s with
  | Some a => toLowerCase a
  | None => "undefined"
  end.

(** Decimal rendering of an integer: [toString()] of an ethers
    BigNumber, [Number.prototype.toFixed(0)] of an integral number. *)
Definition decimal (z : Z) : string := NilZero.string_of_int (Z.to_int z).

Definition decimalN (n : N) : string := decimal (Z.of_N n).

(** The integer written by [s] in decimal syntax, if [s] is one. *)
Definition parseDecimal (s : string) : option Z :=
  option_map Z.of_int (NilZero.int_of_string s).

(** [Number(s)] for a string that is empty or in integer decimal
    syntax; [None] is NaN. *)
Definition Number_ (s : string) : option Z :=
  match s with
  | EmptyString => Some 0
  | _ => parseDecimal s
  end.

(** [Number(x)] for an integer [x] held as a decimal string or as a big
    number: the nearest binary64 value, ties to even. *)
Definition toNumber (z : Z) : float :=
  SF2Prim (binary_normalize prec emax z 0 false).

(** [Array.prototype.join('')]. *)
Definition join (l : list string) : string :=
  fold_right append EmptyString l.

(** [Number.prototype.toFixed(0)] followed by [Number]: rounding to the
    nearest integer, halves away from zero. *)
Definition roundHalfAway (q : Q) : Z :=
  Z.sgn (Qnum q) * ((2 * Z.abs (Qnum q) + Zpos (Qden q)) / (2 * Zpos (Qden q))).

(** [Array.prototype.sort(cmp)].  ECMAScript fixes the outcome for a
    consistent comparator: the stable arrangement in which [a] stays
    before [b] unless [cmp(a, b) > 0].  It is computed here by
    insertion from the right. *)
Section Sort.
Context {A : Type} (cmp : A -> A -> Z).

Fixpoint insert (x : A) (l : list A) : list A :=
  match l with
  | [] => [x]
  | y :: r => if 0 <? cmp x y then y :: insert x r else x :: y :: r
  end.

Fixpoint sort (l : list A) : list A :=
  match l with
  | [] => []
  | x :: r => insert x (sort r)
  end.
End Sort.

End JS.

(** ** bignumber.js, on the values that occur here

    [None] is the library's NaN.  Arguments are non-negative. *)

Module BigNumber.

Definition t := option Q.

Definition ofZ (z : Z) : t := Some (inject_Z z).

(** [new BigNumber(s)] for a string. *)
Definition ofString (s : string) : t := option_map inject_Z (JS.parseDecimal s).

Definition lift2 (f : Q -> Q -> Q) (a b : t) : t :=
  match a, b with
  | Some x, Some y => Some (f x y)
  | _, _ => None
  end.

Definition plus : t -> t -> t := lift2 Qplus.
Definition times : t -> t -> t := lift2 Qmult.

(** [div]: the quotients taken here ([x / 1e16] for an integer [x]) have
    at most 16 decimals, within the 20 the library keeps. *)
Definition div : t -> t -> t := lift2 Qdiv.

(** [toFixed(0, 1)]: no decimals, rounding mode 1 (towards zero). *)
Definition toFixed0 (a : t) : string :=
  match a with
  | Some q => JS.decimal (Z.quot (Qnum q) (Zpos (Qden q)))
  | None => "NaN"
  end.

(** The digits of [s] without its trailing zeros. *)
Fixpoint stripZeros (s : string) : string :=
  match s with
  | EmptyString => EmptyString
  | String c r =>
      match stripZeros r with
      | EmptyString => if Ascii.eqb c "0" then EmptyString else String c EmptyString
      | r' => String c r'
      end
  end.

(** [toString()] of a non-negative integer: plain digits below [1e21],
    exponential notation from there on. *)
Definition toString (a : t) : string :=
  match a with
  | None => "NaN"
  | Some q =>
      let z := Z.quot (Qnum q) (Zpos (Qden q)) in
      let s := JS.decimal z in
      if z <? 10 ^ 21 then s
      else
        let e := JS.decimal (Z.of_nat (String.length s) - 1) in
        match stripZeros s with
        | String c EmptyString => String c EmptyString ++ "e+" ++ e
        | String c r => String c ("." ++ r) ++ "e+" ++ e
        | EmptyString => s
        end
  end.

End BigNumber.

(** ** The outside world and the monad of the [async] functions *)

(** What a [catch (error: any)] clause looks at. *)
Record JsError := { message : string; reason : option string }.

Definition Error_ (msg : string) : JsError := {| message := msg; reason := None |}.

Definition result (A : Type) : Type := (JsError + A)%type.

(** A [gql] document: the queried entity, its [where] clause and the
    selected fields (nested ones by dotted path). *)
Record GqlQuery := {
  entity : string;
  filter : list (string * string);
  selection : list string
}.

(** Outbound calls, as they appear in the log. *)
Inductive Call :=
| Request (endpoint : string) (q : GqlQuery)
| FetchOracle (api : string) (isTestnet : bool) (nftContractAddress : string)
| NftName (provider nft : string)
| GetBalance (provider address : string)
| PoolRead (provider pool method : string) (arg : option string).

(** [chainConfig(chainId)], from [~/lib/constants]. *)
Record ChainConfig := {
  chainProvider : option string;
  quoteApi : option string;
  subgraphUrl : option string;
  isTestnet : bool
}.

(** Rows of the indexer. *)
Record GraphPool := {
  gp_name : string;
  gp_address : string;
  gp_symbol : string;
  gp_maxLoanLength : N;
  gp_minimumInterest : N;
  gp_maxVariableInterestPerEthPerSecond : N;
  gp_ltv : N;
  gp_nftContract : string;
  gp_owner : string
}.

Record GraphLoanPool := {
  lp_name : string;
  lp_owner : string;
  lp_address : string
}.

Record IGraphLoanResponse := {
  gl_id : string;
  gl_loanId : N;
  gl_nftId : N;
  gl_interest : N;
  gl_borrowed : N;
  gl_startTime : N;
  gl_deadline : N;
  gl_tokenUri : string;
  gl_owner : string;
  gl_pool : GraphLoanPool
}.

(** The tuple returned by the pool contract's [getDailyBorrows]. *)
Record DailyBorrows := {
  db_maxInstantBorrow : N;
  db_dailyBorrows : N;
  db_maxDailyBorrowsLimit : N
}.

(** The result of [getMaxNftsToBorrow].

    Modelled from the spec: [getMaxNftsToBorrow] lives in [~/utils]; it
    yields the implied per-NFT price and how many whole NFTs could be
    borrowed against right now, either of which may be absent when the
    oracle price is. *)
Record Borrowables := {
  b_pricePerNft : option string;
  b_maxNftsToBorrow : option N
}.

(** Everything the two modules reach for outside themselves.  The first
    argument of each responder is the number of calls issued before it, so
    the same read may be answered differently as the chain moves on. *)
Record World := {
  clock : nat -> Z;
  chainConfig : option Z -> ChainConfig;
  indexPools : nat -> string -> GqlQuery -> result (list GraphPool);
  indexLoans : nat -> string -> GqlQuery -> result (list IGraphLoanResponse);
  indexLiquidators : nat -> string -> GqlQuery -> result (list string);
  fetchOracle : nat -> string -> bool -> string -> result (option string);
  nftName : nat -> string -> string -> result string;
  getBalance : nat -> string -> string -> result N;
  poolUint : nat -> string -> string -> string -> option string -> result N;
  getDailyBorrows : nat -> string -> string -> result DailyBorrows;
  poolOracle : nat -> string -> string -> result string;
  (* pure helpers of other modules *)
  getAddress : string -> result string;
  getMaxNftsToBorrow : string -> option string -> N -> Borrowables;
  getTotalReceivedArg : option string -> Z -> N -> string;
  SECONDS_IN_A_YEAR : Z
}.

(** Modelled from the spec: [SECONDS_IN_A_DAY] is a constant of
    [~/lib/constants]; one day is 86400 seconds. *)
Definition SECONDS_IN_A_DAY : Z := 86400.

Record St := { calls : list Call; clockReads : nat }.

Definition St0 : St := {| calls := []; clockReads := 0 |}.

Definition M (A : Type) : Type := St -> result A * St.

Definition ret {A} (a : A) : M A := fun s => (inr a, s).

Definition throw {A} (e : JsError) : M A := fun s => (inl e, s).

Definition bind {A B} (m : M A) (k : A -> M B) : M B :=
  fun s =>
    match m s with
    | (inr a, s') => k a s'
    | (inl e, s') => (inl e, s')
    end.

Declare Scope js_scope.
Delimit Scope js_scope with js.
Notation "x <- m ;; k" := (bind m (fun x => k))
  (at level 61, m at next level, right associativity) : js_scope.
Notation "m ;;; k" := (bind m (fun _ => k))
  (at level 61, right associativity) : js_scope.
Local Open Scope js_scope.

(** [try { m } catch (error) { throw new Error(error.message ||
    (error?.reason ?? fallback)) }]. *)
Definition rethrow (fallback : string) (e : JsError) : JsError :=
  Error_ (match message e with
          | EmptyString =>
              match reason e with
              | Some r => r
              | None => fallback
              end
          | msg => msg
          end).

Definition tryCatch {A} (fallback : string) (m : M A) : M A :=
  fun s =>
    match m s with
    | (inl e, s') => (inl (rethrow fallback e), s')
    | r => r
    end.

(** A synchronous call that may throw. *)
Definition lift {A} (r : result A) : M A := fun s => (r, s).

(** An awaited outbound call: logged, then answered by the world. *)
Definition await {A} (c : Call) (answer : nat -> result A) : M A :=
  fun s =>
    (answer (List.length (calls s)),
     {| calls := calls s ++ [c]; clockReads := clockReads s |}).

Fixpoint mapM {A B} (f : A -> M B) (l : list A) : M (list B) :=
  match l with
  | [] => ret []
  | x :: r => y <- f x ;; ys <- mapM f r ;; ret (y :: ys)
  end.

Section Primitives.
Variable w : World.

(** [Date.now()]. *)
Definition dateNow : M Z :=
  fun s => (inr (clock w (clockReads s)),
            {| calls := calls s; clockReads := S (clockReads s) |}).

Definition requestPools (endpoint : string) (q : GqlQuery) : M (list GraphPool) :=
  await (Request endpoint q) (fun t => indexPools w t endpoint q).

Definition requestLoans (endpoint : string) (q : GqlQuery) : M (list IGraphLoanResponse) :=
  await (Request endpoint q) (fun t => indexLoans w t endpoint q).

Definition requestLiquidators (endpoint : string) (q : GqlQuery) : M (list string) :=
  await (Request endpoint q) (fun t => indexLiquidators w t endpoint q).
End Primitives.

(** ** [src/queries/useLoans.tsx] *)

Module Loans.

(** The view model of a loan ([ILoan]). *)
Record ILoan := {
  id : string;
  nftId : N;
  interest : N;
  startTime : N;
  borrowed : N;
  toPay : float;
  deadline : Z;
  tokenUri : string;
  owner : string;
  pool : GraphLoanPool
}.

Record GetLoansArgs := {
  endpoint : option string;
  userAddress : option string;
  poolAddress : option string;
  isTestnet_ : bool
}.

Definition loanFields : list string :=
  ["id"; "loanId"; "nftId"; "interest"; "borrowed"; "startTime"; "deadline";
   "tokenUri"; "owner"; "originalOwner"; "pool.name"; "pool.owner"; "pool.address"].

Definition userLoansQuery (userAddress : option string) : GqlQuery :=
  {| entity := "loans";
     filter := [("originalOwner", JS.lowerOrUndefined userAddress);
                ("owner", JS.lowerOrUndefined userAddress)];
     selection := loanFields |}.

Definition loansByPoolQuery (poolAddress : string) : GqlQuery :=
  {| entity := "loans";
     filter := [("pool", JS.toLowerCase poolAddress)];
     selection := loanFields |}.

Definition liquidatorsQuery (liquidatorAddress : string) : GqlQuery :=
  {| entity := "liquidators";
     filter := [("address", JS.toLowerCase liquidatorAddress)];
     selection := ["pool.address"] |}.

(** [Number((Date.now() / 1e3).toFixed(0))]. *)
Definition blockTimestampOf (nowMs : Z) : Z :=
  JS.roundHalfAway (inject_Z nowMs / inject_Z 1000)%Q.

(** [interest] in [infoToRepayLoan], at the timestamp read.  The
  difference of the two timestamps is exact. *)
Definition interestAt (blockTimestamp : Z) (loan : IGraphLoanResponse) : float :=
  ((JS.toNumber (blockTimestamp - Z.of_N (gl_startTime loan))
    * JS.toNumber (Z.of_N (gl_interest loan))
    * JS.toNumber (Z.of_N (gl_borrowed loan)))
   / 1e18)%float.

(** [lateFees] in [infoToRepayLoan], at the timestamp read. *)
Definition lateFeesAt (blockTimestamp : Z) (loan : IGraphLoanResponse) : float :=
  let deadline := Z.of_N (gl_deadline loan) in
  if deadline <? blockTimestamp
  then ((JS.toNumber (blockTimestamp - deadline) * JS.toNumber (Z.of_N (gl_borrowed loan)))
        / JS.toNumber SECONDS_IN_A_DAY)%float
  else 0%float.

(** The value [infoToRepayLoan] returns once the clock has been read. *)
Definition repayAt (blockTimestamp : Z) (loan : IGraphLoanResponse) : float :=
  (JS.toNumber (Z.of_N (gl_borrowed loan))
   + interestAt blockTimestamp loan
   + lateFeesAt blockTimestamp loan)%float.

(** The comparator handed to [sort] in [getLoans], with the two clock
    readings it takes. *)
Definition compareLoans (now1 now2 : Z) (a b : ILoan) : Z :=
  now1 - deadline b - (now2 - deadline a).

Section WithWorld.
Variable w : World.

Definition infoToRepayLoan (loan : IGraphLoanResponse) : M float :=
  now <- dateNow w ;;
  ret (repayAt (blockTimestampOf now) loan).

(** The callback of [loans.map] in [getLoans]. *)
Definition toLoan (isTestnet : bool) (loan : IGraphLoanResponse) : M ILoan :=
  toPay_ <- infoToRepayLoan loan ;;
  address <- lift (getAddress w (lp_address (gl_pool loan))) ;;
  ret {| id := gl_id loan;
         nftId := gl_nftId loan;
         interest := gl_interest loan;
         startTime := gl_startTime loan;
         borrowed := gl_borrowed loan;
         toPay := toPay_;
         deadline := Z.of_N (gl_deadline loan) * 1000;
         tokenUri := if isTestnet then "" else gl_tokenUri loan;
         owner := gl_owner loan;
         pool := {| lp_name := lp_name (gl_pool loan);
                    lp_owner := lp_owner (gl_pool loan);
                    lp_address := address |} |}.

(** The [sort] step of [getLoans].  The sort is synchronous: the
    readings of [Date.now()] inside it are one reading [now]. *)
Definition sortLoans (now : Z) (l : list ILoan) : list ILoan :=
  JS.sort (compareLoans now now) l.

Definition getLoans (a : GetLoansArgs) : M (list ILoan) :=
  tryCatch "Couldn't get pool data"
    (if (if JS.truthy (poolAddress a) then false else negb (JS.truthy (userAddress a)))
     then ret []
     else
       match JS.whenTruthy (endpoint a) with
       | Some ep =>
           loans <- requestLoans w ep
                      (match JS.whenTruthy (poolAddress a) with
                       | Some p => loansByPoolQuery p
                       | None => userLoansQuery (userAddress a)
                       end) ;;
           mapped <- mapM (toLoan (isTestnet_ a)) loans ;;
           now <- dateNow w ;;
           ret (sortLoans now mapped)
       | None => throw (Error_ "Error: Invalid arguments")
       end).

(** The fetch function that [useGetLoans] hands to [useQuery]. *)
Definition useGetLoans (chainId : option Z) (userAddress poolAddress : option string)
  : M (list ILoan) :=
  let config := chainConfig w chainId in
  getLoans {| endpoint := subgraphUrl config;
              userAddress := userAddress;
              poolAddress := None;
              isTestnet_ := isTestnet config |}.

(** The two nested [forEach] loops of [getLoansToLiquidate]. *)
Fixpoint keepLiquidatable (l : list ILoan) : M (list ILoan) :=
  match l with
  | [] => ret []
  | x :: r =>
      now <- dateNow w ;;
      rest <- keepLiquidatable r ;;
      ret (if deadline x - now <=? 0 then x :: rest else rest)
  end.

Definition getLoansToLiquidate (endpoint : option string)
    (liquidatorAddress : option string) (isTestnet : bool) : M (list ILoan) :=
  tryCatch "Couldn't get pool data"
    (match JS.whenTruthy liquidatorAddress with
     | Some liquidator =>
         match JS.whenTruthy endpoint with
         | Some ep =>
             pools <- requestLiquidators w ep (liquidatorsQuery liquidator) ;;
             loans <- mapM (fun poolAddress =>
                              getLoans {| endpoint := Some ep;
                                          userAddress := None;
                                          poolAddress := Some poolAddress;
                                          isTestnet_ := isTestnet |}) pools ;;
             keepLiquidatable (List.concat loans)
         | None => throw (Error_ "Error: Invalid arguments")
         end
     | None => ret []
     end).

Definition useGetLoansToLiquidate (chainId : option Z)
    (liquidatorAddress : option string) : M (list ILoan) :=
  let config := chainConfig w chainId in
  getLoansToLiquidate (subgraphUrl config) liquidatorAddress (isTestnet config).
End WithWorld.


(** Sorting ascending by deadline directly, soonest first, equal
    deadlines in their original order. *)
Fixpoint insertByDeadline (x : ILoan) (l : list ILoan) : list ILoan :=
  match l with
  | [] => [x]
  | y :: r =>
      if deadline x <=? deadline y then x :: y :: r
      else y :: insertByDeadline x r
  end.

Fixpoint sortByDeadline (l : list ILoan) : list ILoan :=
  match l with
  | [] => []
  | x :: r => insertByDeadline x (sortByDeadline r)
  end.

End Loans.

(** ** The pool aggregator ([getPoolAddlInfo], [getAdminPoolInfo],
       [getAllpools], [useGetAllPools]) *)

Module Pools.

Record IGetAllPoolsArgs := {
  chainId : option Z;
  collectionAddress : option string;
  ownerAddress : option string;
  skipOracle : bool
}.

(** What [getPoolAddlInfo] returns. *)
Record PoolAddlInfo := {
  ai_collectionName : string;
  ai_poolBalance : string;
  ai_totalBorrowed : string;
  ai_totalDeposited : string;
  ai_pricePerNft : option string;
  ai_maxNftsToBorrow : option string;
  ai_currentAnnualInterest : N;
  ai_oracle : string;
  ai_oraclePrice : option string
}.

(** What [getAdminPoolInfo] returns. *)
Record AdminInfo := {
  key : string;
  maxPrice : float;
  maxInstantBorrow : float;
  dailyBorrows : float;
  maxDailyBorrows : float;
  adminMaxLoanLength : Z;
  adminOracle : string;
  minimumInterest : string;
  maximumInterest : string;
  liquidators : list string
}.

(** The view model of a pool ([IBorrowPool]); [adminPoolInfo] is [None]
    for the empty object. *)
Record Pool := {
  name : string;
  symbol : string;
  address : string;
  owner : string;
  nftContract : string;
  maxLoanLength : Z;
  ltv : N;
  collectionName : string;
  poolBalance : string;
  totalBorrowed : string;
  totalDeposited : string;
  maxVariableInterestPerEthPerSecond : string;
  currentAnnualInterest : string;
  pricePerNft : string;
  maxNftsToBorrow : string;
  oracle : string;
  oraclePrice : string;
  adminPoolInfo : option AdminInfo
}.

(** The values resolved by the [Promise.all] of [getAdminPoolInfo]. *)
Record AdminReads := {
  r_maxPrice : N;
  r_daily : DailyBorrows;
  r_maxLoanLength : N;
  r_oracle : string;
  r_minimumInterest : N;
  r_maxVariableInterestPerEthPerSecond : N;
  r_liquidators : list string
}.

Definition poolFields : list string :=
  ["name"; "symbol"; "maxLoanLength"; "minimumInterest";
   "maxVariableInterestPerEthPerSecond"; "ltv"; "nftContract"; "owner"; "address"].

Definition getAllPoolsQuery : GqlQuery :=
  {| entity := "pools"; filter := []; selection := poolFields |}.

Definition getAllPoolsByCollectionQuery (collectionAddress : string) : GqlQuery :=
  {| entity := "pools";
     filter := [("nftContract", JS.toLowerCase collectionAddress)];
     selection := poolFields |}.

Definition getAllPoolsByOwner (ownerAddress : string) : GqlQuery :=
  {| entity := "pools";
     filter := [("owner", JS.toLowerCase ownerAddress)];
     selection := poolFields |}.

Definition poolLiquidatorsQuery (poolAddress : string) : GqlQuery :=
  {| entity := "liquidators";
     filter := [("pool", JS.toLowerCase poolAddress)];
     selection := ["address"] |}.

(** [new BigNumber(Number(x)).div(1e16).times(SECONDS_IN_A_YEAR).toFixed(0, 1)]. *)
Definition annualRate (secondsInAYear : Z) (x : N) : string :=
  BigNumber.toFixed0
    (BigNumber.times
       (BigNumber.div (BigNumber.ofZ (Z.of_N x)) (BigNumber.ofZ (10 ^ 16)))
       (BigNumber.ofZ secondsInAYear)).

(** [(Number(a) + Number(b)).toFixed(0)]. *)
Definition addRates (a b : string) : string :=
  match JS.Number_ a, JS.Number_ b with
  | Some x, Some y => JS.decimal (x + y)
  | _, _ => "NaN"
  end.

(** The object literal returned by [getAdminPoolInfo]. *)
Definition adminInfoOf (secondsInAYear : Z) (nftContractAddress poolAddress : string)
    (r : AdminReads) (liqAddresses : list string) : AdminInfo :=
  let minInt := annualRate secondsInAYear (r_minimumInterest r) in
  let maxVariableInt :=
    annualRate secondsInAYear (r_maxVariableInterestPerEthPerSecond r) in
  {| key :=
       nftContractAddress ++
       poolAddress ++
       JS.decimalN (r_maxPrice r) ++
       JS.decimalN (db_maxInstantBorrow (r_daily r)) ++
       JS.decimalN (db_dailyBorrows (r_daily r)) ++
       JS.decimalN (db_maxDailyBorrowsLimit (r_daily r)) ++
       JS.decimalN (r_maxLoanLength r) ++
       JS.decimalN (r_maxLoanLength r) ++
       minInt ++
       maxVariableInt ++
       JS.join liqAddresses;
     maxPrice := JS.toNumber (Z.of_N (r_maxPrice r));
     maxInstantBorrow := JS.toNumber (Z.of_N (db_maxInstantBorrow (r_daily r)));
     dailyBorrows := JS.toNumber (Z.of_N (db_dailyBorrows (r_daily r)));
     maxDailyBorrows := JS.toNumber (Z.of_N (db_maxDailyBorrowsLimit (r_daily r)));
     adminMaxLoanLength := Z.of_N (r_maxLoanLength r);
     adminOracle := r_oracle r;
     minimumInterest := minInt;
     maximumInterest := addRates maxVariableInt minInt;
     liquidators := liqAddresses |}.

(** [new BigNumber(a).plus(b).toFixed(0, 1)]. *)
Definition plusFixed (a b : string) : string :=
  BigNumber.toFixed0 (BigNumber.plus (BigNumber.ofString a) (BigNumber.ofString b)).

(** [Number(v)], a NaN difference counting as [+0] in the sort. *)
Definition comparePools (a b : Pool) : Z :=
  match JS.Number_ (maxNftsToBorrow b), JS.Number_ (maxNftsToBorrow a) with
  | Some x, Some y => x - y
  | _, _ => 0
  end.

(** [{ ...p, maxNftsToBorrow: v }]. *)
Definition withMaxNftsToBorrow (p : Pool) (v : string) : Pool :=
  {| name := name p; symbol := symbol p; address := address p; owner := owner p;
     nftContract := nftContract p; maxLoanLength := maxLoanLength p; ltv := ltv p;
     collectionName := collectionName p; poolBalance := poolBalance p;
     totalBorrowed := totalBorrowed p; totalDeposited := totalDeposited p;
     maxVariableInterestPerEthPerSecond := maxVariableInterestPerEthPerSecond p;
     currentAnnualInterest := currentAnnualInterest p; pricePerNft := pricePerNft p;
     maxNftsToBorrow := v; oracle := oracle p; oraclePrice := oraclePrice p;
     adminPoolInfo := adminPoolInfo p |}.

(** [o ?? d]. *)
Definition orElse {A} (o : option A) (d : A) : A :=
  match o with
  | Some a => a
  | None => d
  end.

Section WithWorld.
Variable w : World.

Definition getPoolAddlInfo (poolAddress provider nftContractAddress quoteApi_ : string)
    (ltv_ : N) (isTestnet_ skipOracle_ : bool) : M PoolAddlInfo :=
  tryCatch "Couldn't get total amount deposited in pool."
    (price <- (if skipOracle_ then ret None
               else await (FetchOracle quoteApi_ isTestnet_ nftContractAddress)
                      (fun t => fetchOracle w t quoteApi_ isTestnet_ nftContractAddress)) ;;
     collectionName_ <- await (NftName provider nftContractAddress)
                          (fun t => nftName w t provider nftContractAddress) ;;
     poolBalance_ <- await (GetBalance provider poolAddress)
                       (fun t => getBalance w t provider poolAddress) ;;
     totalBorrowed_ <- await (PoolRead provider poolAddress "totalBorrowed" None)
                         (fun t => poolUint w t provider poolAddress "totalBorrowed" None) ;;
     daily <- await (PoolRead provider poolAddress "getDailyBorrows" None)
                (fun t => getDailyBorrows w t provider poolAddress) ;;
     let arg := getTotalReceivedArg w price 1 ltv_ in
     currentAnnualInterest_ <-
       await (PoolRead provider poolAddress "currentAnnualInterest" (Some arg))
         (fun t => poolUint w t provider poolAddress "currentAnnualInterest" (Some arg)) ;;
     oracle_ <- await (PoolRead provider poolAddress "oracle" None)
                  (fun t => poolOracle w t provider poolAddress) ;;
     let priceAndCurrentBorrowables :=
       getMaxNftsToBorrow w (JS.decimalN (db_maxInstantBorrow daily)) price ltv_ in
     ret {| ai_collectionName := collectionName_;
            ai_poolBalance := JS.decimalN poolBalance_;
            ai_totalBorrowed := JS.decimalN totalBorrowed_;
            ai_totalDeposited :=
              plusFixed (JS.decimalN poolBalance_) (JS.decimalN totalBorrowed_);
            ai_pricePerNft := b_pricePerNft priceAndCurrentBorrowables;
            ai_maxNftsToBorrow :=
              option_map JS.decimalN (b_maxNftsToBorrow priceAndCurrentBorrowables);
            ai_currentAnnualInterest := currentAnnualInterest_;
            ai_oracle := oracle_;
            ai_oraclePrice := price |}).

Definition readUint (provider poolAddress method : string) : M N :=
  await (PoolRead provider poolAddress method None)
    (fun t => poolUint w t provider poolAddress method None).

Definition getAdminPoolInfo (poolAddress provider nftContractAddress graphEndpoint : string)
  : M AdminInfo :=
  tryCatch "Couldn't get pool data"
    (maxPrice_ <- readUint provider poolAddress "maxPrice" ;;
     daily <- await (PoolRead provider poolAddress "getDailyBorrows" None)
                (fun t => getDailyBorrows w t provider poolAddress) ;;
     maxLoanLength_ <- readUint provider poolAddress "maxLoanLength" ;;
     oracle_ <- await (PoolRead provider poolAddress "oracle" None)
                  (fun t => poolOracle w t provider poolAddress) ;;
     minimumInterest_ <- readUint provider poolAddress "minimumInterest" ;;
     maxVariable <- readUint provider poolAddress "maxVariableInterestPerEthPerSecond" ;;
     liquidators_ <- requestLiquidators w graphEndpoint (poolLiquidatorsQuery poolAddress) ;;
     liqAddresses <- mapM (fun l => lift (getAddress w l)) liquidators_ ;;
     ret (adminInfoOf (SECONDS_IN_A_YEAR w) nftContractAddress poolAddress
            {| r_maxPrice := maxPrice_;
               r_daily := daily;
               r_maxLoanLength := maxLoanLength_;
               r_oracle := oracle_;
               r_minimumInterest := minimumInterest_;
               r_maxVariableInterestPerEthPerSecond := maxVariable;
               r_liquidators := liquidators_ |}
            liqAddresses)).

(** The callback of [pools.map] at the end of [getAllpools]. *)
Definition mergePool (poolAddlInfo : list PoolAddlInfo) (adminPoolInfo_ : list AdminInfo)
    (index : nat) (pool : GraphPool) : M Pool :=
  let addl := nth_error poolAddlInfo index in
  address_ <- lift (getAddress w (gp_address pool)) ;;
  owner_ <- lift (getAddress w (gp_owner pool)) ;;
  nftContract_ <- lift (getAddress w (gp_nftContract pool)) ;;
  ret {| name := gp_name pool;
         symbol := gp_symbol pool;
         address := address_;
         owner := owner_;
         nftContract := nftContract_;
         maxLoanLength := Z.of_N (gp_maxLoanLength pool);
         ltv := gp_ltv pool;
         collectionName := orElse (option_map ai_collectionName addl) "";
         poolBalance := orElse (option_map ai_poolBalance addl) "0";
         totalBorrowed := orElse (option_map ai_totalBorrowed addl) "0";
         totalDeposited := orElse (option_map ai_totalDeposited addl) "0";
         maxVariableInterestPerEthPerSecond :=
           BigNumber.toString
             (BigNumber.plus
                (BigNumber.ofZ (Z.of_N (gp_maxVariableInterestPerEthPerSecond pool)))
                (BigNumber.ofZ (Z.of_N (gp_minimumInterest pool))));
         currentAnnualInterest :=
           orElse (option_map (fun a => JS.decimalN (ai_currentAnnualInterest a)) addl) "0";
         pricePerNft := orElse (match addl with Some a => ai_pricePerNft a | None => None end) "0";
         maxNftsToBorrow :=
           orElse (match addl with Some a => ai_maxNftsToBorrow a | None => None end) "0";
         oracle := orElse (option_map ai_oracle addl) "";
         oraclePrice :=
           orElse (match addl with Some a => ai_oraclePrice a | None => None end) "";
         adminPoolInfo := nth_error adminPoolInfo_ index |}.

Fixpoint mapiM {A B} (f : nat -> A -> M B) (index : nat) (l : list A) : M (list B) :=
  match l with
  | [] => ret []
  | x :: r => y <- f index x ;; ys <- mapiM f (S index) r ;; ret (y :: ys)
  end.

(** The ternary that picks the pool-list query. *)
Definition poolsQuery (a : IGetAllPoolsArgs) : GqlQuery :=
  match JS.whenTruthy (ownerAddress a) with
  | Some o => getAllPoolsByOwner o
  | None =>
      match JS.whenTruthy (collectionAddress a) with
      | Some c => getAllPoolsByCollectionQuery c
      | None => getAllPoolsQuery
      end
  end.

Definition getAllpools (a : IGetAllPoolsArgs) : M (list Pool) :=
  tryCatch "Couldn't get pools"
    (if negb (JS.truthyNum (chainId a)) then ret []
     else
       let config := chainConfig w (chainId a) in
       match chainProvider config,
             JS.whenTruthy (quoteApi config),
             JS.whenTruthy (subgraphUrl config) with
       | Some provider, Some quoteApi_, Some endpoint =>
           pools <- requestPools w endpoint (poolsQuery a) ;;
           poolAddlInfo <-
             mapM (fun pool =>
                     getPoolAddlInfo (gp_address pool) provider (gp_nftContract pool)
                       quoteApi_ (gp_ltv pool) (isTestnet config) (skipOracle a)) pools ;;
           adminPoolInfo_ <-
             mapM (fun pool =>
                     getAdminPoolInfo (gp_address pool) provider (gp_nftContract pool)
                       endpoint) pools ;;
           merged <- mapiM (mergePool poolAddlInfo adminPoolInfo_) 0 pools ;;
           ret (JS.sort comparePools merged)
       | _, _, _ => throw (Error_ "Invalid arguments")
       end).

(** The fetch function that [useGetAllPools] hands to [useQuery]. *)
Definition useGetAllPools (chainId_ : option Z) (collectionAddress_ ownerAddress_ : option string)
    (skipOracle_ : bool) : M (list Pool) :=
  getAllpools {| chainId := chainId_;
                 collectionAddress := collectionAddress_;
                 ownerAddress := ownerAddress_;
                 skipOracle := skipOracle_ |}.
End WithWorld.

End Pools.

(** ** Regular expressions, as far as [useDeposit] needs them

    [test r s] is [new RegExp('^' + r + '$').test(s)] for a pattern built
    from character classes, alternation, concatenation and [*]: the
    pattern is taken apart one character of [s] at a time. *)

Module Regex.

Inductive re : Type :=
| Never
| Empty
| Class (p : ascii -> bool)
| Alt (r1 r2 : re)
| Cat (r1 r2 : re)
| Star (r : re).

(** [r?]. *)
Definition Opt (r : re) : re := Alt r Empty.

(** Does [r] match the empty string? *)
Fixpoint nullable (r : re) : bool :=
  match r with
  | Never => false
  | Empty => true
  | Class _ => false
  | Alt a b => orb (nullable a) (nullable b)
  | Cat a b => andb (nullable a) (nullable b)
  | Star _ => true
  end.

(** What is left of [r] once [c] has been read. *)
Fixpoint after (c : ascii) (r : re) : re :=
  match r with
  | Never => Never
  | Empty => Never
  | Class p => if p c then Empty else Never
  | Alt a b => Alt (after c a) (after c b)
  | Cat a b =>
      if nullable a then Alt (Cat (after c a) b) (after c b)
      else Cat (after c a) b
  | Star a => Cat (after c a) (Star a)
  end.

Fixpoint test (r : re) (s : string) : bool :=
  match s with
  | EmptyString => nullable r
  | String c s' => test (after c r) s'
  end.

(** [[0-9]]. *)
Definition digit (c : ascii) : bool :=
  let n := nat_of_ascii c in andb (48 <=? n)%nat (n <=? 57)%nat.

(** [[.,]]. *)
Definition dotOrComma (c : ascii) : bool :=
  orb (Ascii.eqb c ".") (Ascii.eqb c ",").

End Regex.

(** ** [src/queries/admin/useDeposit.tsx] *)

Module Deposit.

Record IDeposit := {
  userAddress : option string;
  chainId : Z;
  poolAddress : string;
  amountToDeposit : option string
}.

(** What [useDeposit] takes from its surroundings: the wallet's chain
    and account ([useNetwork], [useAccount]), the ABI and block explorer
    of [chainConfig(chainId)], [formatAmountToDepositOrWithdraw] of
    [~/utils] and the identifiers [txConfirming] gives its toasts. *)
Record Surroundings := {
  chain : option Z;
  address : option string;
  poolABI : string;
  blockExplorer : string;
  formatAmountToDepositOrWithdraw : string -> string;
  toastId : nat -> string
}.

(** The argument of [usePrepareContractWrite]. *)
Record PrepareConfig := {
  addressOrName : string;
  contractInterface : string;
  functionName : string;
  value : string;
  enabled : bool
}.

(** ['^[0-9]*[.,]?[0-9]*$']. *)
Definition amountPattern : Regex.re :=
  Regex.Cat (Regex.Star (Regex.Class Regex.digit))
    (Regex.Cat (Regex.Opt (Regex.Class Regex.dotOrComma))
       (Regex.Star (Regex.Class Regex.digit))).

Definition validAmount (amountToDeposit_ : option string) : bool :=
  match JS.whenTruthy amountToDeposit_ with
  | Some amount => Regex.test amountPattern amount
  | None => false
  end.

(** [a?.toLowerCase() === b?.toLowerCase()]. *)
Definition sameIgnoringCase (a b : option string) : bool :=
  match a, b with
  | Some x, Some y => String.eqb (JS.toLowerCase x) (JS.toLowerCase y)
  | None, None => true
  | _, _ => false
  end.

Definition prepare (e : Surroundings) (d : IDeposit) : PrepareConfig :=
  {| addressOrName := poolAddress d;
     contractInterface := poolABI e;
     functionName := "deposit";
     value := match amountToDeposit d with
              | Some amount =>
                  if validAmount (amountToDeposit d)
                  then formatAmountToDepositOrWithdraw e amount
                  else "0"
              | None => "0"
              end;
     enabled :=
       andb (andb (match chain e with
                   | Some id_ => id_ =? chainId d
                   | None => false
                   end)
                  (sameIgnoringCase (address e) (userAddress d)))
            (validAmount (amountToDeposit d)) |}.

(** What the callbacks do to the page. *)
Inductive Effect :=
| ToggleDialog
| ShowConfirming (txHash blockExplorer_ id_ : string)
| Dismiss (id_ : option string)
| ShowSuccess (txHash blockExplorer_ content : string)
| ShowError (txHash blockExplorer_ : string)
| InvalidateQueries.

(** The refs the callbacks write ([txContext.hash], [txConfirmingId]),
    whether [txContext.dialog] exists, and the effects so far. *)
Record Page := {
  hash : option string;
  hasDialog : bool;
  txConfirmingId : option string;
  effects : list Effect
}.

(** [onSuccess] of [useContractWrite]. *)
Definition onSuccess (e : Surroundings) (dataHash : string) (p : Page) : Page :=
  let toggled := (if hasDialog p then effects p ++ [ToggleDialog] else effects p)%list in
  let id_ := toastId e (List.length toggled) in
  {| hash := Some dataHash;
     hasDialog := hasDialog p;
     txConfirmingId := Some id_;
     effects := (toggled ++ [ShowConfirming dataHash (blockExplorer e) id_])%list |}.

(** [onSettled] of [useWaitForTransaction]; [status] is [data?.status]
    and [writeHash] is [contractWrite.data?.hash]. *)
Definition onSettled (e : Surroundings) (status : option Z) (writeHash : option string)
    (p : Page) : Page :=
  let txHash := match writeHash with Some h => h | None => "" end in
  {| hash := hash p;
     hasDialog := hasDialog p;
     txConfirmingId := txConfirmingId p;
     effects :=
       (effects p ++
        [Dismiss (txConfirmingId p);
         match status with
         | Some 1 => ShowSuccess txHash (blockExplorer e) "Transaction Success"
         | _ => ShowError txHash (blockExplorer e)
         end;
         InvalidateQueries])%list |}.

End Deposit.

(** ** A small concrete world

    Three pools on chain 1, five loans, one liquidator, a clock that
    starts at 1700086405 seconds and gains a millisecond per reading.  Its
    [getAddress] knows the four addresses of the EIP-55 test vectors, in
    lower case and in checksummed form, and rejects everything else. *)

Module Sample.

Definition checksummed : list string :=
  ["0x5aAeb6053F3E94C9b9A09f33669435E7Ef1BeAed";
   "0xfB6916095ca1df60bB79Ce92cE3Ea74c37c5d359";
   "0xdbF03B407c01E7cD3CBea99509d93f8DDDC8C6FB";
   "0xD1220A0cf47c7B9Be7A2E6BA89F429762e7b9aDb"].

Definition knownAddress (a : string) : result string :=
  match find (fun c => orb (String.eqb a c) (String.eqb a (JS.toLowerCase c))) checksummed with
  | Some c => inr c
  | None => inl (Error_ "invalid address")
  end.

Definition alice : string := "0x5aaeb6053f3e94c9b9a09f33669435e7ef1beaed".
Definition poolA : string := "0xfb6916095ca1df60bb79ce92ce3ea74c37c5d359".
Definition poolB : string := "0xdbf03b407c01e7cd3cbea99509d93f8dddc8c6fb".
Definition poolC : string := "0xd1220a0cf47c7b9be7a2e6ba89f429762e7b9adb".

Definition graphPool (name_ address_ : string) : GraphPool :=
  {| gp_name := name_;
     gp_address := address_;
     gp_symbol := "LL";
     gp_maxLoanLength := 1209600;
     gp_minimumInterest := 1268391679;
     gp_maxVariableInterestPerEthPerSecond := 2536783358;
     gp_ltv := 330000000000000000;
     gp_nftContract := alice;
     gp_owner := alice |}.

Definition graphLoan (id_ : string) (borrowed_ deadline_ : N) (pool_ : string)
  : IGraphLoanResponse :=
  {| gl_id := id_;
     gl_loanId := 1;
     gl_nftId := 42;
     gl_interest := 2000000000;
     gl_borrowed := borrowed_;
     gl_startTime := deadline_ - 1209600;
     gl_deadline := deadline_;
     gl_tokenUri := "ipfs://token";
     gl_owner := alice;
     gl_pool := {| lp_name := "A"; lp_owner := alice; lp_address := pool_ |} |}.

Definition oneEther : N := 1000000000000000000.

(** A loan of 7777777777777777 wei, due at 1700000005. *)
Definition oddLoan : IGraphLoanResponse :=
  graphLoan "l5" 7777777777777777 1700000005 poolC.

Definition hasFilter (q : GqlQuery) (k v : string) : bool :=
  existsb (fun kv => andb (String.eqb (fst kv) k) (String.eqb (snd kv) v)) (filter q).

Definition loansOf (q : GqlQuery) : list IGraphLoanResponse :=
  if orb (hasFilter q "pool" poolA) (hasFilter q "owner" alice)
  then [graphLoan "l1" oneEther 1700000010 poolA;
        graphLoan "l2" oneEther 1700000005 poolA;
        graphLoan "l3" oneEther 1700000020 poolA]
  else if hasFilter q "pool" poolB
  then [graphLoan "l4" oneEther 1800000000 poolB]
  else if hasFilter q "pool" poolC
  then [oddLoan]
  else [].

(** The maximum instantly borrowable amount of each pool. *)
Definition instantBorrow (pool_ : string) : N :=
  if String.eqb pool_ poolA then 3
  else if String.eqb pool_ poolB then 10
  else 1.

Definition world (oracle_ : string) : World :=
  {| clock := fun n => 1700086405000 + Z.of_nat n;
     chainConfig := fun c =>
       match c with
       | Some 1 => {| chainProvider := Some "mainnet";
                      quoteApi := Some "https://oracle.example";
                      subgraphUrl := Some "https://graph.example";
                      isTestnet := false |}
       | _ => {| chainProvider := None; quoteApi := None;
                 subgraphUrl := None; isTestnet := false |}
       end;
     indexPools := fun _ _ _ =>
       inr [graphPool "A" poolA; graphPool "B" poolB; graphPool "C" poolC];
     indexLoans := fun _ _ q => inr (loansOf q);
     indexLiquidators := fun _ _ q =>
       inr (if hasFilter q "address" alice then [poolA; poolB] else [alice]);
     fetchOracle := fun _ _ _ _ => inr (Some "1000000000000000000");
     nftName := fun _ _ _ => inr "Tubby Cats";
     getBalance := fun _ _ _ => inr 5000000000000000000%N;
     poolUint := fun _ _ _ method _ =>
       inr (if String.eqb method "totalBorrowed" then 7000000000000000000%N
            else if String.eqb method "maxLoanLength" then 1209600%N
            else 1268391679%N);
     getDailyBorrows := fun _ _ pool_ =>
       inr {| db_maxInstantBorrow := instantBorrow pool_;
              db_dailyBorrows := 0;
              db_maxDailyBorrowsLimit := 30 |};
     poolOracle := fun _ _ _ => inr oracle_;
     getAddress := knownAddress;
     getMaxNftsToBorrow := fun maxInstantBorrow_ price _ =>
       {| b_pricePerNft := price;
          b_maxNftsToBorrow := option_map Z.to_N (JS.Number_ maxInstantBorrow_) |};
     getTotalReceivedArg := fun _ _ _ => "0";
     SECONDS_IN_A_YEAR := 31536000 |}.

Definition oracle1 : string := "0x5aAeb6053F3E94C9b9A09f33669435E7Ef1BeAed".
Definition oracle2 : string := "0xfB6916095ca1df60bB79Ce92cE3Ea74c37c5d359".

Definition args (chainId_ : option Z) (owner_ : option string) : Pools.IGetAllPoolsArgs :=
  {| Pools.chainId := chainId_;
     Pools.collectionAddress := None;
     Pools.ownerAddress := owner_;
     Pools.skipOracle := false |}.

Definition w : World := world oracle1.

Definition graph : string := "https://graph.example".

(** The loans of Alice, as [getLoans] returns them. *)
Definition loanArgs : Loans.GetLoansArgs :=
  {| Loans.endpoint := Some graph;
     Loans.userAddress := Some alice;
     Loans.poolAddress := None;
     Loans.isTestnet_ := false |}.

Definition loans : list Loans.ILoan :=
  Eval vm_compute in
    match fst (Loans.getLoans w loanArgs St0) with
    | inr l => l
    | inl _ => []
    end.

Definition loansSt : St := Eval vm_compute in snd (Loans.getLoans w loanArgs St0).

Definition noLoan : Loans.ILoan :=
  {| Loans.id := ""; Loans.nftId := 0; Loans.interest := 0; Loans.startTime := 0;
     Loans.borrowed := 0; Loans.toPay := 0%float; Loans.deadline := 0; Loans.tokenUri := "";
     Loans.owner := "";
     Loans.pool := {| lp_name := ""; lp_owner := ""; lp_address := "" |} |}.

Definition firstLoan : Loans.ILoan := Eval vm_compute in hd noLoan loans.

(** The loans of pool C. *)
Definition poolCArgs : Loans.GetLoansArgs :=
  {| Loans.endpoint := Some graph;
     Loans.userAddress := None;
     Loans.poolAddress := Some poolC;
     Loans.isTestnet_ := false |}.

Definition poolCLoans : list Loans.ILoan :=
  Eval vm_compute in
    match fst (Loans.getLoans w poolCArgs St0) with
    | inr l => l
    | inl _ => []
    end.

Definition poolCLoan : Loans.ILoan := Eval vm_compute in hd noLoan poolCLoans.

(** The loans Alice may liquidate. *)
Definition liquidatable : list Loans.ILoan :=
  Eval vm_compute in
    match fst (Loans.getLoansToLiquidate w (Some graph) (Some alice) false St0) with
    | inr l => l
    | inl _ => []
    end.

Definition liquidatableSt : St :=
  Eval vm_compute in snd (Loans.getLoansToLiquidate w (Some graph) (Some alice) false St0).

(** The pools of chain 1, as [getAllpools] returns them. *)
Definition pools : list Pools.Pool :=
  Eval vm_compute in
    match fst (Pools.getAllpools w (args (Some 1) None) St0) with
    | inr l => l
    | inl _ => []
    end.

Definition poolsSt : St :=
  Eval vm_compute in snd (Pools.getAllpools w (args (Some 1) None) St0).

Definition noPool : Pools.Pool :=
  {| Pools.name := ""; Pools.symbol := ""; Pools.address := ""; Pools.owner := "";
     Pools.nftContract := ""; Pools.maxLoanLength := 0; Pools.ltv := 0;
     Pools.collectionName := ""; Pools.poolBalance := ""; Pools.totalBorrowed := "";
     Pools.totalDeposited := ""; Pools.maxVariableInterestPerEthPerSecond := "";
     Pools.currentAnnualInterest := ""; Pools.pricePerNft := "";
     Pools.maxNftsToBorrow := ""; Pools.oracle := ""; Pools.oraclePrice := "";
     Pools.adminPoolInfo := None |}.

Definition firstPool : Pools.Pool := Eval vm_compute in hd noPool pools.

(** A pool merged when no enrichment is at hand. *)
Definition bare : Pools.Pool :=
  Eval vm_compute in
    match fst (Pools.mergePool w [] [] 0 (graphPool "A" poolA) St0) with
    | inr p => p
    | inl _ => noPool
    end.

End Sample.

(** ** Vocabulary of the properties *)

Local Open Scope list_scope.

(** [Emits P m]: whatever [m] does, it only appends calls satisfying [P]
    to the log, and never takes back a clock reading. *)
Definition Emits {A} (P : Call -> Prop) (m : M A) : Prop :=
  forall s r s', m s = (r, s') ->
    (clockReads s <= clockReads s')%nat /\
    exists new, calls s' = calls s ++ new /\ Forall P new.

(** [Silent m]: [m] issues no call at all. *)
Definition Silent {A} (m : M A) : Prop :=
  forall s r s', m s = (r, s') ->
    (clockReads s <= clockReads s')%nat /\ calls s' = calls s.

(** [a] is in the form [getAddress] returns. *)
Definition Canonical (w : World) (a : string) : Prop :=
  exists raw, getAddress w raw = inr a.


(** A query for the pool list. *)
Definition isPoolListQuery (c : Call) : bool :=
  match c with
  | Request _ q => String.eqb (entity q) "pools"
  | _ => false
  end.

(** Not a query filtered by pool. *)
Definition notByPool (c : Call) : Prop :=
  match c with
  | Request _ q => ~ In "pool"%string (map fst (filter q))
  | _ => True
  end.

Module LoanProps.
Import Loans.


(** The repayment formula for the record [ln], with the operations of
    binary64 and evaluated at the clock reading [nowMs]: [now] is that
    reading in seconds, and the record's deadline, kept in milliseconds,
    is taken back to seconds. *)
Definition repaymentAt (nowMs : Z) (ln : ILoan) : Prop :=
  let now := blockTimestampOf nowMs in
  let B := JS.toNumber (Z.of_N (borrowed ln)) in
  let deadlineSeconds := deadline ln / 1000 in
  let accruedInterest :=
    (JS.toNumber (now - Z.of_N (startTime ln)) * JS.toNumber (Z.of_N (interest ln)) * B
     / 1e18)%float in
  let lateFees :=
    if deadlineSeconds <? now
    then (JS.toNumber (now - deadlineSeconds) * B / 86400)%float
    else 0%float in
  toPay ln = (B + accruedInterest + lateFees)%float /\
  (now = deadlineSeconds + 86400 -> lateFees = (86400 * B / 86400)%float) /\
  (now <= deadlineSeconds -> lateFees = 0%float).

End LoanProps.

Module PoolProps.
Import Pools.

(** The strings of a live enrichment that the claims look at. *)
Definition addlOK (r : PoolAddlInfo) : Prop :=
  (exists b t,
     ai_poolBalance r = JS.decimalN b /\
     ai_totalBorrowed r = JS.decimalN t /\
     ai_totalDeposited r = plusFixed (JS.decimalN b) (JS.decimalN t)) /\
  (exists n, ai_maxNftsToBorrow r = option_map JS.decimalN n).

Definition adminOK (w : World) (r : AdminInfo) : Prop :=
  Forall (Canonical w) (liquidators r).

(** Read as exact decimal integers, the three balance strings of [p]
    satisfy [totalDeposited = poolBalance + totalBorrowed]. *)
Definition sumsUp (p : Pool) : Prop :=
  exists b t d,
    JS.parseDecimal (poolBalance p) = Some b /\
    JS.parseDecimal (totalBorrowed p) = Some t /\
    JS.parseDecimal (totalDeposited p) = Some d /\
    d = b + t.

(** [Number(p.maxNftsToBorrow) >= Number(q.maxNftsToBorrow)], both being
    numbers. *)
Definition atLeast (p q : Pool) : Prop :=
  exists x y,
    JS.Number_ (maxNftsToBorrow p) = Some x /\
    JS.Number_ (maxNftsToBorrow q) = Some y /\
    x >= y.

Definition wholeNfts (p : Pool) : Prop :=
  exists n, maxNftsToBorrow p = JS.decimalN n.

Definition nftsOf (p : Pool) : Z :=
  match JS.Number_ (maxNftsToBorrow p) with
  | Some x => x
  | None => 0
  end.

(** [P] holds of every call the two enrichments can issue. *)
Record PoolSide (P : Call -> Prop) : Prop := {
  ps_oracle : forall api t n, P (FetchOracle api t n);
  ps_name : forall pr n, P (NftName pr n);
  ps_balance : forall pr a, P (GetBalance pr a);
  ps_read : forall pr p m arg, P (PoolRead pr p m arg);
  ps_liquidators : forall ep x, P (Request ep (poolLiquidatorsQuery x))
}.

(** What [getAllpools] does once the pool list has arrived. *)
Definition enrich (w : World) (a : IGetAllPoolsArgs) (provider quoteApi_ endpoint : string)
    (pools : list GraphPool) : M (list Pool) :=
  (poolAddlInfo <-
     mapM (fun pool =>
             getPoolAddlInfo w (gp_address pool) provider (gp_nftContract pool)
               quoteApi_ (gp_ltv pool) (isTestnet (chainConfig w (chainId a)))
               (skipOracle a)) pools ;;
   adminPoolInfo_ <-
     mapM (fun pool =>
             getAdminPoolInfo w (gp_address pool) provider (gp_nftContract pool)
               endpoint) pools ;;
   merged <- mapiM (mergePool w poolAddlInfo adminPoolInfo_) 0 pools ;;
   ret (JS.sort comparePools merged))%js.

(** The endpoint [getAllpools] queries, when its two guards let it. *)
Definition reachesIndexer (w : World) (a : IGetAllPoolsArgs) : option string :=
  if JS.truthyNum (chainId a) then
    match chainProvider (chainConfig w (chainId a)),
          JS.whenTruthy (quoteApi (chainConfig w (chainId a))),
          JS.whenTruthy (subgraphUrl (chainConfig w (chainId a))) with
    | Some _, Some _, Some endpoint => Some endpoint
    | _, _, _ => None
    end
  else None.

Definition sameLength (a b : string) : Prop := String.length a = String.length b.

(** The parts concatenated into the two keys have the same lengths, one
    by one. *)
Definition partsAlign (secondsInAYear : Z)
    (nft1 pool1 : string) (r1 : AdminReads) (liq1 : list string)
    (nft2 pool2 : string) (r2 : AdminReads) (liq2 : list string) : Prop :=
  sameLength nft1 nft2 /\
  sameLength pool1 pool2 /\
  sameLength (JS.decimalN (r_maxPrice r1)) (JS.decimalN (r_maxPrice r2)) /\
  sameLength (JS.decimalN (db_maxInstantBorrow (r_daily r1)))
             (JS.decimalN (db_maxInstantBorrow (r_daily r2))) /\
  sameLength (JS.decimalN (db_dailyBorrows (r_daily r1)))
             (JS.decimalN (db_dailyBorrows (r_daily r2))) /\
  sameLength (JS.decimalN (db_maxDailyBorrowsLimit (r_daily r1)))
             (JS.decimalN (db_maxDailyBorrowsLimit (r_daily r2))) /\
  sameLength (JS.decimalN (r_maxLoanLength r1)) (JS.decimalN (r_maxLoanLength r2)) /\
  sameLength (annualRate secondsInAYear (r_minimumInterest r1))
             (annualRate secondsInAYear (r_minimumInterest r2)) /\
  sameLength (annualRate secondsInAYear (r_maxVariableInterestPerEthPerSecond r1))
             (annualRate secondsInAYear (r_maxVariableInterestPerEthPerSecond r2)) /\
  Forall2 sameLength liq1 liq2.

(** Agreement on every field other than [key] and [oracle]. *)
Definition agreeOnKeyedFields (x y : AdminInfo) : Prop :=
  maxPrice x = maxPrice y /\
  maxInstantBorrow x = maxInstantBorrow y /\
  dailyBorrows x = dailyBorrows y /\
  maxDailyBorrows x = maxDailyBorrows y /\
  adminMaxLoanLength x = adminMaxLoanLength y /\
  minimumInterest x = minimumInterest y /\
  maximumInterest x = maximumInterest y /\
  liquidators x = liquidators y.

(** The admin info the sample world yields for pool A when the pool's
    [oracle()] answers [oracle_]. *)
Definition sampleAdmin (oracle_ : string) : option AdminInfo :=
  match fst (getAdminPoolInfo (Sample.world oracle_) Sample.poolA "mainnet"
               Sample.alice Sample.graph St0) with
  | inr r => Some r
  | inl _ => None
  end.

Definition sampleReads (oracle_ : string) (maxPrice_ maxInstantBorrow_ : N) : AdminReads :=
  {| r_maxPrice := maxPrice_;
     r_daily := {| db_maxInstantBorrow := maxInstantBorrow_;
                   db_dailyBorrows := 0;
                   db_maxDailyBorrowsLimit := 30 |};
     r_maxLoanLength := 1209600;
     r_oracle := oracle_;
     r_minimumInterest := 1268391679;
     r_maxVariableInterestPerEthPerSecond := 2536783358;
     r_liquidators := [] |}.
End PoolProps.

(** ** Vocabulary of the further properties *)

Module RegexProps.
Import Regex.

(** The strings a pattern stands for. *)
Inductive Lang : re -> string -> Prop :=
| L_Empty : Lang Empty EmptyString
| L_Class p c : p c = true -> Lang (Class p) (String c EmptyString)
| L_AltL a b s : Lang a s -> Lang (Alt a b) s
| L_AltR a b s : Lang b s -> Lang (Alt a b) s
| L_Cat a b s t : Lang a s -> Lang b t -> Lang (Cat a b) (s ++ t)%string
| L_Star0 a : Lang (Star a) EmptyString
| L_StarS a s t : Lang a s -> Lang (Star a) t -> Lang (Star a) (s ++ t)%string.

(** Every character of [s] satisfies [p]. *)
Fixpoint allOf (p : ascii -> bool) (s : string) : bool :=
  match s with
  | EmptyString => true
  | String c r => andb (p c) (allOf p r)
  end.

(** Digits, then at most one of [.] and [,], then digits. *)
Definition amountShaped (s : string) : Prop :=
  exists a sep b,
    s = (a ++ sep ++ b)%string /\
    allOf digit a = true /\ allOf digit b = true /\
    (sep = EmptyString \/ sep = "."%string \/ sep = ","%string).
End RegexProps.

Module MoreLoanProps.
Import Loans.

(** The text the [catch] clauses of [useLoans.tsx] fall back on. *)
Definition loansFallback : string := "Couldn't get pool data".

(** The first test of [getLoans]: no usable address. *)
Definition noAddress (a : GetLoansArgs) : bool :=
  if JS.truthy (poolAddress a) then false else negb (JS.truthy (userAddress a)).

(** The query [getLoans] picks. *)
Definition queryOf (a : GetLoansArgs) : GqlQuery :=
  match JS.whenTruthy (poolAddress a) with
  | Some p => loansByPoolQuery p
  | None => userLoansQuery (userAddress a)
  end.

(** The calls of one run of [getLoans]. *)
Definition requestsOf (a : GetLoansArgs) : list Call :=
  if noAddress a then []
  else
    match JS.whenTruthy (endpoint a) with
    | Some ep => [Request ep (queryOf a)]
    | None => []
    end.

(** [getAddress] accepts the pool address of the row. *)
Definition accepted (w : World) (row : IGraphLoanResponse) : Prop :=
  exists c, getAddress w (lp_address (gl_pool row)) = inr c.

(** The record [ln] shows the row [row]. *)
Definition shows (isTestnet : bool) (row : IGraphLoanResponse) (ln : ILoan) : Prop :=
  id ln = gl_id row /\
  nftId ln = gl_nftId row /\
  interest ln = gl_interest row /\
  startTime ln = gl_startTime row /\
  borrowed ln = gl_borrowed row /\
  deadline ln = Z.of_N (gl_deadline row) * 1000 /\
  tokenUri ln = (if isTestnet then EmptyString else gl_tokenUri row) /\
  owner ln = gl_owner row /\
  lp_name (pool ln) = lp_name (gl_pool row) /\
  lp_owner (pool ln) = lp_owner (gl_pool row).

(** The arguments [getLoansToLiquidate] calls [getLoans] with. *)
Definition poolArgs (ep : string) (isTestnet : bool) (p : string) : GetLoansArgs :=
  {| endpoint := Some ep;
     userAddress := None;
     poolAddress := Some p;
     isTestnet_ := isTestnet |}.
End MoreLoanProps.

Module MorePoolProps.
Import Pools.
Local Open Scope list_scope.

(** [m], when it succeeds, has issued exactly [n] calls. *)
Definition Adds {A} (n : nat) (m : M A) : Prop :=
  forall s a s', m s = (inr a, s') ->
    exists new, calls s' = calls s ++ new /\ List.length new = n.

Definition isOracleCall (c : Call) : bool :=
  match c with
  | FetchOracle _ _ _ => true
  | _ => false
  end.

Definition quiet (c : Call) : Prop := isOracleCall c = false.

(** The text the [catch] clause of [getAllpools] falls back on. *)
Definition poolsFallback : string := "Couldn't get pools".

(** The pool [p] is the row [row] merged with the enrichments [info]
    and [admin]. *)
Definition mergedFrom (w : World) (row : GraphPool) (info : PoolAddlInfo)
    (admin : AdminInfo) (p : Pool) : Prop :=
  name p = gp_name row /\
  symbol p = gp_symbol row /\
  maxLoanLength p = Z.of_N (gp_maxLoanLength row) /\
  ltv p = gp_ltv row /\
  getAddress w (gp_address row) = inr (address p) /\
  getAddress w (gp_owner row) = inr (owner p) /\
  getAddress w (gp_nftContract row) = inr (nftContract p) /\
  collectionName p = ai_collectionName info /\
  poolBalance p = ai_poolBalance info /\
  totalBorrowed p = ai_totalBorrowed info /\
  totalDeposited p = ai_totalDeposited info /\
  currentAnnualInterest p = JS.decimalN (ai_currentAnnualInterest info) /\
  pricePerNft p = orElse (ai_pricePerNft info) "0"%string /\
  maxNftsToBorrow p = orElse (ai_maxNftsToBorrow info) "0"%string /\
  oracle p = ai_oracle info /\
  oraclePrice p = orElse (ai_oraclePrice info) EmptyString /\
  adminPoolInfo p = Some admin.

(** The two enrichments of [row], as [getAllpools] asks for them. *)
Definition enrichedBy (w : World) (a : IGetAllPoolsArgs) (provider quoteApi_ endpoint : string)
    (row : GraphPool) (info : PoolAddlInfo) (admin : AdminInfo) : Prop :=
  (exists s1 s2,
     getPoolAddlInfo w (gp_address row) provider (gp_nftContract row) quoteApi_
       (gp_ltv row) (isTestnet (chainConfig w (chainId a))) (skipOracle a) s1
     = (inr info, s2)) /\
  (exists s3 s4,
     getAdminPoolInfo w (gp_address row) provider (gp_nftContract row) endpoint s3
     = (inr admin, s4)).

(** [x * secondsInAYear / 1e16], towards zero. *)
Definition truncatedRate (secondsInAYear : Z) (x : N) : Z :=
  Z.quot (Z.of_N x * secondsInAYear) (10 ^ 16).
End MorePoolProps.

Module DepositProps.
Import Deposit.
Local Open Scope list_scope.

(** The callbacks of the hook, as the page fires them. *)
Inductive Event :=
| Succeeded (dataHash : string)
| Settled (status : option Z) (writeHash : option string).

Definition handle (e : Surroundings) (p : Page) (ev : Event) : Page :=
  match ev with
  | Succeeded h => onSuccess e h p
  | Settled status writeHash => onSettled e status writeHash p
  end.

Definition run (e : Surroundings) (evs : list Event) (p : Page) : Page :=
  fold_left (handle e) evs p.

(** The toast [id_] has been opened. *)
Definition opened (p : Page) (id_ : string) : Prop :=
  exists h be, In (ShowConfirming h be id_) (effects p).

(** Every toast whose id the page holds or has dismissed was opened. *)
Definition settled (p : Page) : Prop :=
  (forall id_, txConfirmingId p = Some id_ -> opened p id_) /\
  (forall id_, In (Dismiss (Some id_)) (effects p) -> opened p id_).

Definition isSettled (ev : Event) : bool :=
  match ev with
  | Settled _ _ => true
  | Succeeded _ => false
  end.

Definition isInvalidation (x : Effect) : bool :=
  match x with
  | InvalidateQueries => true
  | _ => false
  end.
End DepositProps.

(** ** More of the sample world *)

Module MoreSample.
Local Open Scope string_scope.

(** The sample world with its clock stopped. *)
Definition stillNow : Z := 1700086405000.

Definition still : World :=
  {| clock := fun _ => stillNow;
     chainConfig := chainConfig Sample.w;
     indexPools := indexPools Sample.w;
     indexLoans := indexLoans Sample.w;
     indexLiquidators := indexLiquidators Sample.w;
     fetchOracle := fetchOracle Sample.w;
     nftName := nftName Sample.w;
     getBalance := getBalance Sample.w;
     poolUint := poolUint Sample.w;
     getDailyBorrows := getDailyBorrows Sample.w;
     poolOracle := poolOracle Sample.w;
     getAddress := getAddress Sample.w;
     getMaxNftsToBorrow := getMaxNftsToBorrow Sample.w;
     getTotalReceivedArg := getTotalReceivedArg Sample.w;
     SECONDS_IN_A_YEAR := SECONDS_IN_A_YEAR Sample.w |}.

Definition stillLiquidatable : list Loans.ILoan :=
  Eval vm_compute in
    match fst (Loans.getLoansToLiquidate still (Some Sample.graph) (Some Sample.alice)
                 false St0) with
    | inr l => l
    | inl _ => []
    end.

Definition stillSt : St :=
  Eval vm_compute in
    snd (Loans.getLoansToLiquidate still (Some Sample.graph) (Some Sample.alice) false St0).

(** The loans of Alice on a testnet. *)
Definition testnetArgs : Loans.GetLoansArgs :=
  {| Loans.endpoint := Some Sample.graph;
     Loans.userAddress := Some Sample.alice;
     Loans.poolAddress := None;
     Loans.isTestnet_ := true |}.

Definition testnetLoans : list Loans.ILoan :=
  Eval vm_compute in
    match fst (Loans.getLoans Sample.w testnetArgs St0) with
    | inr l => l
    | inl _ => []
    end.

Definition testnetSt : St := Eval vm_compute in snd (Loans.getLoans Sample.w testnetArgs St0).

(** Alice's loans asked for without an endpoint. *)
Definition noEndpointArgs : Loans.GetLoansArgs :=
  {| Loans.endpoint := None;
     Loans.userAddress := Some Sample.alice;
     Loans.poolAddress := None;
     Loans.isTestnet_ := false |}.

Definition invalidArguments : JsError := Error_ "Error: Invalid arguments".

(** The pools of chain 1 without the oracle. *)
Definition skipArgs : Pools.IGetAllPoolsArgs :=
  {| Pools.chainId := Some 1;
     Pools.collectionAddress := None;
     Pools.ownerAddress := None;
     Pools.skipOracle := true |}.

Definition skipPools : list Pools.Pool :=
  Eval vm_compute in
    match fst (Pools.getAllpools Sample.w skipArgs St0) with
    | inr l => l
    | inl _ => []
    end.

Definition skipSt : St := Eval vm_compute in snd (Pools.getAllpools Sample.w skipArgs St0).

Definition reads : Pools.AdminReads :=
  {| Pools.r_maxPrice := 1000000000000000000;
     Pools.r_daily := {| db_maxInstantBorrow := 3; db_dailyBorrows := 0;
                         db_maxDailyBorrowsLimit := 30 |};
     Pools.r_maxLoanLength := 1209600;
     Pools.r_oracle := Sample.oracle1;
     Pools.r_minimumInterest := 1268391679;
     Pools.r_maxVariableInterestPerEthPerSecond := 2536783358;
     Pools.r_liquidators := [] |}.

(** A wallet on chain 1 and a deposit of one and a half. *)
Definition surroundings : Deposit.Surroundings :=
  {| Deposit.chain := Some 1;
     Deposit.address := Some "0x5aAeb6053F3E94C9b9A09f33669435E7Ef1BeAed";
     Deposit.poolABI := "abi";
     Deposit.blockExplorer := "https://explorer.example";
     Deposit.formatAmountToDepositOrWithdraw := fun s => s;
     Deposit.toastId := fun n => JS.decimal (Z.of_nat n) |}.

Definition deposit : Deposit.IDeposit :=
  {| Deposit.userAddress := Some Sample.alice;
     Deposit.chainId := 1;
     Deposit.poolAddress := Sample.poolA;
     Deposit.amountToDeposit := Some "1.5" |}.

Definition freshPage : Deposit.Page :=
  {| Deposit.hash := None;
     Deposit.hasDialog := true;
     Deposit.txConfirmingId := None;
     Deposit.effects := [] |}.

Definition events : list DepositProps.Event :=
  [DepositProps.Succeeded "0xabc"; DepositProps.Settled (Some 1) (Some "0xabc")].
End MoreSample.

(** ** Facts about the monad *)

Local Open Scope list_scope.

Section MonadFacts.

Lemma Silent_Emits {A} P (m : M A) : Silent m -> Emits P m.
Proof.
  intros H s r s' E. destruct (H _ _ _ E) as [Hc Hl]. split; [exact Hc|].
  exists []. rewrite app_nil_r. auto.
Qed.

Lemma Emits_weaken {A} (P Q : Call -> Prop) (m : M A) :
  (forall c, P c -> Q c) -> Emits P m -> Emits Q m.
Proof.
  intros PQ H s r s' E. destruct (H _ _ _ E) as [Hc [new [Hl Hf]]].
  split; [exact Hc|]. exists new. split; [exact Hl|].
  eapply Forall_impl; eauto.
Qed.

Lemma Silent_ret {A} (a : A) : Silent (ret a).
Proof. intros s r s' E. inversion E; subst. auto. Qed.

Lemma Silent_throw {A} e : Silent (@throw A e).
Proof. intros s r s' E. inversion E; subst. auto. Qed.

Lemma Silent_lift {A} (x : result A) : Silent (lift x).
Proof. intros s r s' E. inversion E; subst. auto. Qed.

Lemma Silent_dateNow w : Silent (dateNow w).
Proof. intros s r s' E. inversion E; subst. simpl. auto. Qed.

Lemma Silent_bind {A B} (m : M A) (k : A -> M B) :
  Silent m -> (forall a, Silent (k a)) -> Silent (bind m k).
Proof.
  intros Hm Hk s r s' E. unfold bind in E.
  destruct (m s) as [[e|a] s1] eqn:Em.
  - inversion E; subst. eauto.
  - destruct (Hm _ _ _ Em) as [H1 H2].
    destruct (Hk _ _ _ _ E) as [H3 H4]. split; [lia|congruence].
Qed.

Lemma Silent_mapM {A B} (f : A -> M B) l :
  (forall x, Silent (f x)) -> Silent (mapM f l).
Proof.
  intros Hf. induction l as [|x l IH]; simpl.
  - apply Silent_ret.
  - apply Silent_bind; [apply Hf|]. intros y.
    apply Silent_bind; [exact IH|]. intros ys. apply Silent_ret.
Qed.

Lemma Emits_bind {A B} P (m : M A) (k : A -> M B) :
  Emits P m -> (forall a, Emits P (k a)) -> Emits P (bind m k).
Proof.
  intros Hm Hk s r s' E. unfold bind in E.
  destruct (m s) as [[e|a] s1] eqn:Em.
  - inversion E; subst. eauto.
  - destruct (Hm _ _ _ Em) as [H1 [n1 [L1 F1]]].
    destruct (Hk _ _ _ _ E) as [H2 [n2 [L2 F2]]].
    split; [lia|]. exists (n1 ++ n2). split.
    + rewrite L2, L1, app_assoc. reflexivity.
    + apply Forall_app; auto.
Qed.

Lemma Emits_await {A} (P : Call -> Prop) c (answer : nat -> result A) :
  P c -> Emits P (await c answer).
Proof.
  intros Pc s r s' E. inversion E; subst. simpl. split; [lia|].
  exists [c]. auto.
Qed.

Lemma Emits_tryCatch {A} P fb (m : M A) : Emits P m -> Emits P (tryCatch fb m).
Proof.
  intros Hm s r s' E. unfold tryCatch in E.
  destruct (m s) as [[e|a] s1] eqn:Em; inversion E; subst; eauto.
Qed.

Lemma Emits_mapM {A B} P (f : A -> M B) l :
  (forall x, Emits P (f x)) -> Emits P (mapM f l).
Proof.
  intros Hf. induction l as [|x l IH]; simpl.
  - apply Silent_Emits, Silent_ret.
  - apply Emits_bind; [apply Hf|]. intros y.
    apply Emits_bind; [exact IH|]. intros ys. apply Silent_Emits, Silent_ret.
Qed.

Lemma Forall2_In_r {A B} (R : A -> B -> Prop) l l' y :
  Forall2 R l l' -> In y l' -> exists x, In x l /\ R x y.
Proof.
  induction 1 as [|a b l l' Hab H IH]; simpl; intros Hin; [contradiction|].
  destruct Hin as [<-|Hin].
  - exists a. auto.
  - destruct (IH Hin) as [x [Hx HR]]. exists x. auto.
Qed.

(** Inversion of successful runs. *)
Lemma bind_inr {A B} (m : M A) (k : A -> M B) s b s' :
  bind m k s = (inr b, s') ->
  exists a s1, m s = (inr a, s1) /\ k a s1 = (inr b, s').
Proof.
  unfold bind. destruct (m s) as [[e|a] s1]; [discriminate|]. eauto.
Qed.

Lemma tryCatch_inr {A} fb (m : M A) s a s' :
  tryCatch fb m s = (inr a, s') -> m s = (inr a, s').
Proof.
  unfold tryCatch. destruct (m s) as [[e|x] s1]; [discriminate|auto].
Qed.

Lemma ret_inr {A} (a b : A) s s' : ret a s = (inr b, s') -> a = b /\ s = s'.
Proof. intros E. inversion E. auto. Qed.

(** Every element of a successful [mapM] comes from a successful run of
    the callback on the matching input, between the two end states. *)
Lemma mapM_inr {A B} (f : A -> M B) :
  (forall x, Emits (fun _ => True) (f x)) ->
  forall l s ys s', mapM f l s = (inr ys, s') ->
    Forall2 (fun x y => exists s1 s2,
               (clockReads s <= clockReads s1)%nat /\
               (clockReads s2 <= clockReads s')%nat /\
               f x s1 = (inr y, s2)) l ys.
Proof.
  intros Hf. induction l as [|x l IH]; simpl; intros s ys s' E.
  - apply ret_inr in E. destruct E as [<- _]. constructor.
  - apply bind_inr in E. destruct E as [y [s1 [E1 E]]].
    apply bind_inr in E. destruct E as [ys' [s2 [E2 E]]].
    apply ret_inr in E. destruct E as [<- <-].
    destruct (Hf _ _ _ _ E1) as [H1 _].
    destruct (Emits_mapM _ f l Hf _ _ _ E2) as [H2 _].
    constructor.
    + exists s, s1. repeat split; try lia. exact E1.
    + eapply Forall2_impl; [|apply (IH _ _ _ E2)].
      intros a b [t1 [t2 [G1 [G2 G3]]]]. exists t1, t2.
      repeat split; try lia. exact G3.
Qed.

Lemma mapM_Forall {A B} (f : A -> M B) (Q : B -> Prop) :
  (forall x s y s', f x s = (inr y, s') -> Q y) ->
  forall l s ys s', mapM f l s = (inr ys, s') -> Forall Q ys.
Proof.
  intros Hf. induction l as [|x r IH]; simpl; intros s ys s' E.
  - apply ret_inr in E. destruct E as [<- _]. constructor.
  - apply bind_inr in E. destruct E as [y [s1 [E1 E]]].
    apply bind_inr in E. destruct E as [ys' [s2 [E2 E]]].
    apply ret_inr in E. destruct E as [<- _].
    constructor; [eapply Hf; eauto|eapply IH; eauto].
Qed.

End MonadFacts.

(** ** The loan aggregator *)

Module LoansFacts.
Import Loans LoanProps.

Lemma dateNow_inr w s t s' :
  dateNow w s = (inr t, s') ->
  t = clock w (clockReads s) /\ clockReads s' = S (clockReads s) /\ calls s' = calls s.
Proof. intros E. inversion E; subst. simpl. auto. Qed.

Lemma lift_inr {A} (x : result A) s a s' :
  lift x s = (inr a, s') -> x = inr a /\ s' = s.
Proof. intros E. inversion E; subst. auto. Qed.

(** What a successful run of the [map] callback fixes about its result. *)
Lemma toLoan_inr w t raw s ln s' :
  toLoan w t raw s = (inr ln, s') ->
  clockReads s' = S (clockReads s) /\
  toPay ln = repayAt (blockTimestampOf (clock w (clockReads s))) raw /\
  deadline ln = Z.of_N (gl_deadline raw) * 1000 /\
  borrowed ln = gl_borrowed raw /\
  startTime ln = gl_startTime raw /\
  interest ln = gl_interest raw /\
  owner ln = gl_owner raw /\
  lp_owner (pool ln) = lp_owner (gl_pool raw) /\
  getAddress w (lp_address (gl_pool raw)) = inr (lp_address (pool ln)).
Proof.
  unfold toLoan, infoToRepayLoan. intros E.
  apply bind_inr in E. destruct E as [p [s1 [E1 E]]].
  apply bind_inr in E1. destruct E1 as [now [s0 [E0 E1]]].
  apply dateNow_inr in E0. destruct E0 as [-> [Hc _]].
  apply ret_inr in E1. destruct E1 as [<- <-].
  apply bind_inr in E. destruct E as [addr [s2 [E2 E]]].
  apply lift_inr in E2. destruct E2 as [Ha ->].
  apply ret_inr in E. destruct E as [<- <-]. simpl.
  repeat split; auto.
Qed.

Lemma Silent_toLoan w t raw : Silent (toLoan w t raw).
Proof.
  unfold toLoan, infoToRepayLoan.
  apply Silent_bind.
  - apply Silent_bind; [apply Silent_dateNow|]. intros; apply Silent_ret.
  - intros p. apply Silent_bind; [apply Silent_lift|]. intros; apply Silent_ret.
Qed.

(** The calls of [getLoans]: at most the one loan query. *)
Lemma Emits_getLoans w (P : Call -> Prop) a :
  (forall ep, JS.whenTruthy (endpoint a) = Some ep ->
     P (Request ep (match JS.whenTruthy (poolAddress a) with
                    | Some p => loansByPoolQuery p
                    | None => userLoansQuery (userAddress a)
                    end))) ->
  Emits P (getLoans w a).
Proof.
  intros HP. unfold getLoans. apply Emits_tryCatch.
  destruct (if JS.truthy (poolAddress a) then false else negb (JS.truthy (userAddress a))).
  - apply Silent_Emits, Silent_ret.
  - destruct (JS.whenTruthy (endpoint a)) as [ep|].
    + apply Emits_bind.
      * apply Emits_await. apply HP. reflexivity.
      * intros loans. apply Silent_Emits.
        apply Silent_bind; [apply Silent_mapM; intros; apply Silent_toLoan|].
        intros mapped. apply Silent_bind; [apply Silent_dateNow|].
        intros; apply Silent_ret.
    + apply Silent_Emits, Silent_throw.
Qed.

(** A successful [getLoans] returns the sorted image of the rows it
    received, each mapped at some clock reading taken during the call. *)
Lemma getLoans_inr w a s l s' :
  getLoans w a s = (inr l, s') ->
  exists raws mapped now,
    l = sortLoans now mapped /\
    Forall2 (fun raw ln => exists s1 s2,
               (clockReads s <= clockReads s1)%nat /\
               (clockReads s2 <= clockReads s')%nat /\
               toLoan w (isTestnet_ a) raw s1 = (inr ln, s2)) raws mapped.
Proof.
  unfold getLoans. intros E. apply tryCatch_inr in E.
  destruct (if JS.truthy (poolAddress a) then false else negb (JS.truthy (userAddress a))).
  - apply ret_inr in E. destruct E as [<- <-].
    exists [], [], 0. split; [reflexivity|constructor].
  - destruct (JS.whenTruthy (endpoint a)) as [ep|]; [|discriminate].
    apply bind_inr in E. destruct E as [raws [s1 [E1 E]]].
    apply bind_inr in E. destruct E as [mapped [s2 [E2 E]]].
    apply bind_inr in E. destruct E as [now [s3 [E3 E]]].
    apply ret_inr in E. destruct E as [<- <-].
    apply dateNow_inr in E3. destruct E3 as [_ [Hc3 _]].
    assert (H1 : (clockReads s <= clockReads s1)%nat).
    { unfold requestLoans, await in E1. inversion E1; subst. simpl. lia. }
    exists raws, mapped, now. split; [reflexivity|].
    eapply Forall2_impl; [|eapply mapM_inr; [|exact E2]].
    + intros x y [t1 [t2 [G1 [G2 G3]]]]. exists t1, t2.
      repeat split; try lia. exact G3.
    + intros x. apply Silent_Emits, Silent_toLoan.
Qed.

(** The comparator reads the clock twice.  Deadlines being whole
    seconds in milliseconds, a clock that gains less than a second
    between the two readings leaves its sign test what it is for one
    reading. *)
Lemma compareLoans_two_readings now1 now2 a b :
  0 <= now2 - now1 < 1000 ->
  (exists da, deadline a = da * 1000) ->
  (exists db_, deadline b = db_ * 1000) ->
  (0 <? compareLoans now1 now2 a b) = (0 <? compareLoans now1 now1 a b).
Proof.
  intros Hn [da Ha] [db_ Hb]. unfold compareLoans. rewrite Ha, Hb.
  destruct (Z.ltb_spec 0 (now1 - db_ * 1000 - (now2 - da * 1000)));
    destruct (Z.ltb_spec 0 (now1 - db_ * 1000 - (now1 - da * 1000)));
    try reflexivity; lia.
Qed.

Lemma insert_compareLoans now x l :
  JS.insert (compareLoans now now) x l = insertByDeadline x l.
Proof.
  induction l as [|y r IH]; simpl; [reflexivity|].
  unfold compareLoans at 1.
  destruct (Z.ltb_spec 0 (now - deadline y - (now - deadline x)));
    destruct (Z.leb_spec (deadline x) (deadline y)); try lia.
  - rewrite IH. reflexivity.
  - reflexivity.
Qed.

Lemma sortLoans_sortByDeadline now l : sortLoans now l = sortByDeadline l.
Proof.
  unfold sortLoans. induction l as [|x r IH]; simpl; [reflexivity|].
  rewrite IH. apply insert_compareLoans.
Qed.

Lemma insertByDeadline_perm x l : Permutation (x :: l) (insertByDeadline x l).
Proof.
  induction l as [|y r IH]; simpl; [apply Permutation_refl|].
  destruct (deadline x <=? deadline y); [apply Permutation_refl|].
  eapply Permutation_trans; [apply perm_swap|]. apply perm_skip, IH.
Qed.

Lemma sortByDeadline_perm l : Permutation l (sortByDeadline l).
Proof.
  induction l as [|x r IH]; simpl; [apply Permutation_refl|].
  eapply Permutation_trans; [apply perm_skip, IH|apply insertByDeadline_perm].
Qed.



Lemma Silent_keepLiquidatable w l : Silent (keepLiquidatable w l).
Proof.
  induction l as [|x r IH]; simpl; [apply Silent_ret|].
  apply Silent_bind; [apply Silent_dateNow|]. intros now.
  apply Silent_bind; [exact IH|]. intros; apply Silent_ret.
Qed.

(** Each loan kept by the filter passed the test [deadline - now <= 0]
    at the reading taken for it. *)
Lemma keepLiquidatable_inr w l :
  forall s out s', keepLiquidatable w l s = (inr out, s') ->
  forall ln, In ln out ->
  exists k, (clockReads s <= k < clockReads s')%nat /\ deadline ln - clock w k <= 0.
Proof.
  induction l as [|x r IH]; simpl; intros s out s' E ln Hin.
  - apply ret_inr in E. destruct E as [<- _]. contradiction.
  - apply bind_inr in E. destruct E as [now [s1 [E1 E]]].
    apply bind_inr in E. destruct E as [rest [s2 [E2 E]]].
    apply ret_inr in E. destruct E as [<- <-].
    apply dateNow_inr in E1. destruct E1 as [-> [Hc _]].
    destruct (Silent_keepLiquidatable w r _ _ _ E2) as [Hm _].
    assert (Hrest : In ln rest ->
              exists k, (clockReads s <= k < clockReads s2)%nat /\
                        deadline ln - clock w k <= 0).
    { intros Hr. destruct (IH _ _ _ E2 _ Hr) as [k [Hk Hd]].
      exists k. split; [lia|exact Hd]. }
    destruct (Z.leb_spec (deadline x - clock w (clockReads s)) 0) as [Hle|Hgt].
    + destruct Hin as [<-|Hin]; [|auto].
      exists (clockReads s). split; [lia|exact Hle].
    + auto.
Qed.

Lemma Emits_any_getLoans w a : Emits (fun _ => True) (getLoans w a).
Proof. apply Emits_getLoans. auto. Qed.




End LoansFacts.

Module LoansClaims.
Import Loans LoanProps LoansFacts.

Lemma toNumber_86400 : JS.toNumber 86400 = 86400%float.
Proof. vm_compute. reflexivity. Qed.

(** C2, amended.  Every loan record returned by [getLoans] carries
    [toPay = borrowed + accruedInterest + lateFees] in binary64
    arithmetic, where [now] is the clock reading (in seconds) taken for
    that loan, [accruedInterest = (now - startTime) * interest *
    borrowed / 1e18], and [lateFees = (now - deadline) * borrowed /
    86400] when [now > deadline] and [0] otherwise.  At or before the
    deadline the late fees are zero; exactly one day past it they are
    the binary64 value of [86400 * B / 86400], [B] being
    [Number(borrowed)]. *)
Theorem toPay_is_principal_interest_lateFees :
  forall w a s l s', getLoans w a s = (inr l, s') ->
  forall ln, In ln l ->
  exists k, (clockReads s <= k < clockReads s')%nat /\ repaymentAt (clock w k) ln.
Proof.
  intros w a s l s' E ln Hin.
  destruct (getLoans_inr _ _ _ _ _ E) as [raws [mapped [now0 [-> HF]]]].
  rewrite sortLoans_sortByDeadline in Hin.
  apply (Permutation_in _ (Permutation_sym (sortByDeadline_perm mapped))) in Hin.
  destruct (Forall2_In_r _ _ _ _ HF Hin) as [raw [_ [s1 [s2 [G1 [G2 G3]]]]]].
  apply toLoan_inr in G3.
  destruct G3 as [Hc [Hp [Hd [Hb [Hs [Hi _]]]]]].
  exists (clockReads s1). split; [lia|].
  unfold repaymentAt. cbv zeta. rewrite Hp, Hd, Hb, Hs, Hi.
  rewrite Z.div_mul by lia.
  set (now := blockTimestampOf (clock w (clockReads s1))).
  split; [|split].
  - unfold repayAt, interestAt, lateFeesAt, SECONDS_IN_A_DAY.
    rewrite toNumber_86400. reflexivity.
  - intros Hn. rewrite Hn.
    replace (Z.of_N (gl_deadline raw) <? Z.of_N (gl_deadline raw) + 86400) with true
      by (symmetry; apply Z.ltb_lt; lia).
    replace (Z.of_N (gl_deadline raw) + 86400 - Z.of_N (gl_deadline raw)) with 86400 by lia.
    rewrite toNumber_86400. reflexivity.
  - intros Hn.
    replace (Z.of_N (gl_deadline raw) <? now) with false
      by (symmetry; apply Z.ltb_ge; lia).
    reflexivity.
Qed.

(** One ether, one day late: the late fees are the amount borrowed. *)
Example lateFees_one_day_late_one_ether :
  lateFeesAt (1700000005 + 86400)
    (Sample.graphLoan "l2" Sample.oneEther 1700000005 Sample.poolA)
  = JS.toNumber (Z.of_N Sample.oneEther).
Proof. vm_compute. reflexivity. Qed.

(** C2 as stated fails in its last part.  The loan of pool C, of
    7777777777777777 wei, is examined exactly one day past its deadline;
    its late fees come out as 7777777777777776, not as the amount
    borrowed. *)
Lemma lateFees_one_day_late_not_borrowed :
  let now := blockTimestampOf (clock Sample.w 0) in
  fst (getLoans Sample.w Sample.poolCArgs St0) = inr [Sample.poolCLoan] /\
  now = deadline Sample.poolCLoan / 1000 + 86400 /\
  JS.toNumber (Z.of_N (borrowed Sample.poolCLoan)) = 7777777777777777%float /\
  lateFeesAt now Sample.oddLoan = 7777777777777776%float /\
  toPay Sample.poolCLoan
    = (JS.toNumber (Z.of_N (borrowed Sample.poolCLoan))
       + interestAt now Sample.oddLoan
       + lateFeesAt now Sample.oddLoan)%float /\
  lateFeesAt now Sample.oddLoan <> JS.toNumber (Z.of_N (borrowed Sample.poolCLoan)).
Proof.
  cbv zeta. repeat split; try (vm_compute; reflexivity).
  intro H. apply (f_equal Prim2SF) in H. vm_compute in H. discriminate H.
Qed.


End LoansClaims.

Module LiquidationClaims.
Import Loans LoanProps LoansFacts.

(** C9.  [getLoansToLiquidate] returns the empty list, without any call,
    when [liquidatorAddress] is absent; and every loan it returns had
    [deadline - now <= 0] at the clock reading [now] taken when it was
    examined, so that no loan whose deadline lay strictly after that
    reading is in the result.  If the clock stands at [T] for the whole
    call, no returned loan has its deadline after [T]. *)
Theorem getLoansToLiquidate_only_past_deadline :
  forall w endpoint_ liquidator isTestnet s,
    (JS.truthy liquidator = false ->
       getLoansToLiquidate w endpoint_ liquidator isTestnet s = (inr [], s)) /\
    (forall l s',
       getLoansToLiquidate w endpoint_ liquidator isTestnet s = (inr l, s') ->
       forall ln, In ln l ->
         (exists k, (clockReads s <= k < clockReads s')%nat /\
                    deadline ln - clock w k <= 0 /\
                    ~ (clock w k < deadline ln)) /\
         (forall T,
            (forall k, (clockReads s <= k < clockReads s')%nat -> clock w k = T) ->
            ~ (T < deadline ln))).
Proof.
  intros w endpoint_ liquidator isTestnet s. split.
  - intros Hl. unfold getLoansToLiquidate, tryCatch, JS.whenTruthy.
    rewrite Hl. reflexivity.
  - intros l s' E ln Hin.
    assert (H : exists k, (clockReads s <= k < clockReads s')%nat /\
                          deadline ln - clock w k <= 0).
    { unfold getLoansToLiquidate in E. apply tryCatch_inr in E.
      destruct (JS.whenTruthy liquidator) as [liq|].
      - destruct (JS.whenTruthy endpoint_) as [ep|]; [|discriminate].
        apply bind_inr in E. destruct E as [pools [s1 [E1 E]]].
        apply bind_inr in E. destruct E as [loans [s2 [E2 E]]].
        assert (H1 : (clockReads s <= clockReads s1)%nat).
        { unfold requestLiquidators, await in E1. inversion E1; subst. simpl. lia. }
        assert (H2 : (clockReads s1 <= clockReads s2)%nat).
        { eapply (Emits_mapM (fun _ => True)); [|exact E2].
          intros x. apply Emits_any_getLoans. }
        destruct (keepLiquidatable_inr _ _ _ _ _ E _ Hin) as [k [Hk Hd]].
        exists k. split; [lia|exact Hd].
      - apply ret_inr in E. destruct E as [<- _]. contradiction. }
    destruct H as [k [Hk Hd]]. split.
    + exists k. repeat split; try lia.
    + intros T HT. rewrite <- (HT k Hk). lia.
Qed.

(** C10.  The fetch of [useGetLoans] is [getLoans] with [poolAddress]
    undefined, whatever [poolAddress] the hook was given: no loan query
    filtered by pool is ever issued through it, and when [userAddress]
    is absent too it returns the empty list (without any call). *)
Theorem useGetLoans_never_forwards_poolAddress :
  forall w chainId_ userAddress_ poolAddress_,
    (exists a,
       useGetLoans w chainId_ userAddress_ poolAddress_ = getLoans w a /\
       poolAddress a = None /\ userAddress a = userAddress_) /\
    useGetLoans w chainId_ userAddress_ poolAddress_
      = useGetLoans w chainId_ userAddress_ None /\
    Emits notByPool (useGetLoans w chainId_ userAddress_ poolAddress_) /\
    (JS.truthy userAddress_ = false ->
       forall s, useGetLoans w chainId_ userAddress_ poolAddress_ s = (inr [], s)).
Proof.
  intros w chainId_ userAddress_ poolAddress_.
  split; [|split; [|split]].
  - eexists. split; [reflexivity|]. split; reflexivity.
  - reflexivity.
  - unfold useGetLoans. apply Emits_getLoans. simpl. intros ep _.
    intros [H|[H|[]]]; discriminate.
  - intros Hu s. unfold useGetLoans, getLoans, tryCatch. simpl.
    rewrite Hu. reflexivity.
Qed.

End LiquidationClaims.

(** ** Decimal strings *)

Module Decimals.

Lemma parseDecimal_decimal z : JS.parseDecimal (JS.decimal z) = Some z.
Proof.
  unfold JS.parseDecimal, JS.decimal.
  rewrite NilZero.isi.
  - simpl. rewrite DecimalZ.of_to. reflexivity.
  - destruct z; simpl; intros [= H]; revert H; apply DecimalPos.Unsigned.to_uint_nonnil.
  - destruct z; simpl; intros [= H]; revert H; apply DecimalPos.Unsigned.to_uint_nonnil.
Qed.

Lemma decimal_nonempty z : JS.decimal z <> EmptyString.
Proof.
  intros H. pose proof (parseDecimal_decimal z) as P. rewrite H in P. discriminate.
Qed.

Lemma Number_decimal z : JS.Number_ (JS.decimal z) = Some z.
Proof.
  unfold JS.Number_. destruct (JS.decimal z) eqn:E.
  - exfalso. exact (decimal_nonempty z E).
  - rewrite <- E. apply parseDecimal_decimal.
Qed.

Lemma decimal_inj z z' : JS.decimal z = JS.decimal z' -> z = z'.
Proof.
  intros H. pose proof (parseDecimal_decimal z) as P.
  rewrite H, parseDecimal_decimal in P. congruence.
Qed.

Lemma decimalN_inj n n' : JS.decimalN n = JS.decimalN n' -> n = n'.
Proof. unfold JS.decimalN. intros H. apply decimal_inj in H. lia. Qed.

(** [new BigNumber(a).plus(b).toFixed(0, 1)] on two rendered integers is
    the rendering of their exact sum. *)
Lemma plusFixed_decimal a b :
  Pools.plusFixed (JS.decimal a) (JS.decimal b) = JS.decimal (a + b).
Proof.
  unfold Pools.plusFixed, BigNumber.ofString.
  rewrite !parseDecimal_decimal. simpl.
  rewrite !Z.mul_1_r, Z.quot_1_r. reflexivity.
Qed.

End Decimals.

(** ** [Array.prototype.sort] *)

Section SortFacts.
Context {A : Type} (cmp : A -> A -> Z).

Lemma insert_perm x l : Permutation (x :: l) (JS.insert cmp x l).
Proof.
  induction l as [|y r IH]; simpl; [apply Permutation_refl|].
  destruct (0 <? cmp x y); [|apply Permutation_refl].
  eapply Permutation_trans; [apply perm_swap|]. apply perm_skip, IH.
Qed.

Lemma sort_perm l : Permutation l (JS.sort cmp l).
Proof.
  induction l as [|x r IH]; simpl; [apply Permutation_refl|].
  eapply Permutation_trans; [apply perm_skip, IH|apply insert_perm].
Qed.

(** When the comparator is [key b - key a] on the elements at hand, the
    result is in descending order of [key]. *)
Context (key : A -> Z) (D : A -> Prop).
Hypothesis cmp_key : forall x y, D x -> D y -> cmp x y = key y - key x.

Lemma insert_descending x l :
  D x -> Forall D l ->
  StronglySorted (fun a b => key a >= key b) l ->
  StronglySorted (fun a b => key a >= key b) (JS.insert cmp x l).
Proof.
  intros Dx. induction l as [|y r IH]; simpl; intros Dl H.
  - constructor; constructor.
  - inversion H as [|? ? Hr Hy]; subst.
    inversion Dl as [|? ? Dy Dr]; subst.
    rewrite (cmp_key x y Dx Dy).
    destruct (Z.ltb_spec 0 (key y - key x)).
    + constructor; [apply IH; assumption|].
      eapply Permutation_Forall; [apply insert_perm|].
      constructor; [lia|exact Hy].
    + constructor; [exact H|]. constructor; [lia|].
      eapply Forall_impl; [|exact Hy]. simpl. intros; lia.
Qed.

Lemma sort_descending l :
  Forall D l -> StronglySorted (fun a b => key a >= key b) (JS.sort cmp l).
Proof.
  induction l as [|x r IH]; simpl; intros Dl; [constructor|].
  inversion Dl; subst.
  apply insert_descending; auto.
  eapply Permutation_Forall; [apply sort_perm|assumption].
Qed.
End SortFacts.

Lemma StronglySorted_refine {A} (R R' : A -> A -> Prop) (D : A -> Prop) l :
  (forall a b, D a -> D b -> R a b -> R' a b) ->
  Forall D l -> StronglySorted R l -> StronglySorted R' l.
Proof.
  intros HR. induction l as [|x r IH]; intros Dl H; [constructor|].
  inversion Dl as [|? ? Dx Dr]; subst. inversion H as [|? ? Hr Hx]; subst.
  constructor; [apply IH; assumption|].
  rewrite Forall_forall in *. intros y Hy. apply HR; auto.
Qed.

(** Two neighbours of a strongly sorted list are related. *)
Lemma StronglySorted_adjacent {A} (R : A -> A -> Prop) l :
  StronglySorted R l ->
  forall i a b, nth_error l i = Some a -> nth_error l (S i) = Some b -> R a b.
Proof.
  induction 1 as [|x r Hr IH Hx]; intros i a b Ha Hb.
  - destruct i; discriminate.
  - destruct i as [|i].
    + simpl in Ha. inversion Ha; subst. rewrite Forall_forall in Hx.
      apply Hx. apply (nth_error_In r 0). exact Hb.
    + apply (IH i); [exact Ha|exact Hb].
Qed.

(** ** The pool aggregator *)

Module PoolsFacts.
Import Pools PoolProps LoansFacts Decimals.

Lemma await_inr {A} c (answer : nat -> result A) s a s' :
  await c answer s = (inr a, s') ->
  answer (List.length (calls s)) = inr a /\
  calls s' = calls s ++ [c] /\ clockReads s' = clockReads s.
Proof. unfold await. intros E. inversion E; subst. simpl. auto. Qed.

Lemma getPoolAddlInfo_inr w pa pr nft qa l it so s r s' :
  getPoolAddlInfo w pa pr nft qa l it so s = (inr r, s') -> addlOK r.
Proof.
  unfold getPoolAddlInfo. intros E. apply tryCatch_inr in E.
  apply bind_inr in E. destruct E as [price [s1 [_ E]]].
  apply bind_inr in E. destruct E as [cn [s2 [_ E]]].
  apply bind_inr in E. destruct E as [b [s3 [_ E]]].
  apply bind_inr in E. destruct E as [t [s4 [_ E]]].
  apply bind_inr in E. destruct E as [d [s5 [_ E]]].
  apply bind_inr in E. destruct E as [ci [s6 [_ E]]].
  apply bind_inr in E. destruct E as [o [s7 [_ E]]].
  apply ret_inr in E. destruct E as [<- _]. split; simpl; eauto.
Qed.

Lemma mapM_getAddress_inr w l :
  forall s out s', mapM (fun x => lift (getAddress w x)) l s = (inr out, s') ->
  Forall (Canonical w) out.
Proof.
  induction l as [|x r IH]; simpl; intros s out s' E.
  - apply ret_inr in E. destruct E as [<- _]. constructor.
  - apply bind_inr in E. destruct E as [y [s1 [E1 E]]].
    apply bind_inr in E. destruct E as [ys [s2 [E2 E]]].
    apply ret_inr in E. destruct E as [<- _].
    apply lift_inr in E1. destruct E1 as [Hy _].
    constructor; [exists x; exact Hy|eapply IH; eauto].
Qed.

Lemma getAdminPoolInfo_inr w pa pr nft ep s r s' :
  getAdminPoolInfo w pa pr nft ep s = (inr r, s') ->
  exists reads liqs,
    r = adminInfoOf (SECONDS_IN_A_YEAR w) nft pa reads liqs /\
    Forall (Canonical w) liqs.
Proof.
  unfold getAdminPoolInfo. intros E. apply tryCatch_inr in E.
  apply bind_inr in E. destruct E as [mp [s1 [_ E]]].
  apply bind_inr in E. destruct E as [d [s2 [_ E]]].
  apply bind_inr in E. destruct E as [ml [s3 [_ E]]].
  apply bind_inr in E. destruct E as [o [s4 [_ E]]].
  apply bind_inr in E. destruct E as [mi [s5 [_ E]]].
  apply bind_inr in E. destruct E as [mv [s6 [_ E]]].
  apply bind_inr in E. destruct E as [ls [s7 [_ E]]].
  apply bind_inr in E. destruct E as [la [s8 [E8 E]]].
  apply ret_inr in E. destruct E as [<- _].
  eexists; eexists. split; [reflexivity|].
  eapply mapM_getAddress_inr; eauto.
Qed.

Lemma mergePool_inr w addl admin i pool s p s' :
  mergePool w addl admin i pool s = (inr p, s') ->
  getAddress w (gp_address pool) = inr (address p) /\
  getAddress w (gp_owner pool) = inr (owner p) /\
  getAddress w (gp_nftContract pool) = inr (nftContract p) /\
  poolBalance p = orElse (option_map ai_poolBalance (nth_error addl i)) "0"%string /\
  totalBorrowed p = orElse (option_map ai_totalBorrowed (nth_error addl i)) "0"%string /\
  totalDeposited p = orElse (option_map ai_totalDeposited (nth_error addl i)) "0"%string /\
  maxNftsToBorrow p =
    orElse (match nth_error addl i with
            | Some a => ai_maxNftsToBorrow a
            | None => None
            end) "0"%string /\
  adminPoolInfo p = nth_error admin i.
Proof.
  unfold mergePool. intros E.
  apply bind_inr in E. destruct E as [a1 [s1 [E1 E]]].
  apply bind_inr in E. destruct E as [a2 [s2 [E2 E]]].
  apply bind_inr in E. destruct E as [a3 [s3 [E3 E]]].
  apply ret_inr in E. destruct E as [<- _]. simpl.
  apply lift_inr in E1, E2, E3.
  destruct E1 as [-> _], E2 as [-> _], E3 as [-> _].
  repeat split; reflexivity.
Qed.

Lemma mapiM_inr {A B} (f : nat -> A -> M B) l :
  forall i s ys s', mapiM f i l s = (inr ys, s') ->
  Forall2 (fun x y => exists j s1 s2, f j x s1 = (inr y, s2)) l ys.
Proof.
  induction l as [|x r IH]; simpl; intros i s ys s' E.
  - apply ret_inr in E. destruct E as [<- _]. constructor.
  - apply bind_inr in E. destruct E as [y [s1 [E1 E]]].
    apply bind_inr in E. destruct E as [ys' [s2 [E2 E]]].
    apply ret_inr in E. destruct E as [<- _].
    constructor; [eauto|eapply IH; eauto].
Qed.

(** A successful [getAllpools] returns the sorted merge of the rows it
    received with their enrichments. *)
Lemma getAllpools_inr w a s l s' :
  getAllpools w a s = (inr l, s') ->
  exists pools addl admin merged,
    l = JS.sort comparePools merged /\
    Forall addlOK addl /\
    Forall (adminOK w) admin /\
    Forall2 (fun pool p => exists j s1 s2,
               mergePool w addl admin j pool s1 = (inr p, s2)) pools merged.
Proof.
  unfold getAllpools. intros E. apply tryCatch_inr in E.
  destruct (negb (JS.truthyNum (chainId a))).
  - apply ret_inr in E. destruct E as [<- _].
    exists [], [], [], []. repeat split; constructor.
  - destruct (chainProvider (chainConfig w (chainId a))) as [provider|]; [|discriminate].
    destruct (JS.whenTruthy (quoteApi (chainConfig w (chainId a)))) as [qa|]; [|discriminate].
    destruct (JS.whenTruthy (subgraphUrl (chainConfig w (chainId a)))) as [ep|]; [|discriminate].
    apply bind_inr in E. destruct E as [pools [s1 [_ E]]].
    apply bind_inr in E. destruct E as [addl [s2 [E2 E]]].
    apply bind_inr in E. destruct E as [admin [s3 [E3 E]]].
    apply bind_inr in E. destruct E as [merged [s4 [E4 E]]].
    apply ret_inr in E. destruct E as [<- _].
    exists pools, addl, admin, merged. split; [reflexivity|]. split; [|split].
    + refine (mapM_Forall _ addlOK _ _ _ _ _ E2). intros x t y t' H.
      apply getPoolAddlInfo_inr in H. exact H.
    + refine (mapM_Forall _ (adminOK w) _ _ _ _ _ E3). intros x t y t' H.
      apply getAdminPoolInfo_inr in H. destruct H as [reads [liqs [-> HL]]].
      exact HL.
    + eapply mapiM_inr; eauto.
Qed.

End PoolsFacts.

Module PoolsClaims.
Import Pools PoolProps PoolsFacts Decimals.

Lemma merged_sumsUp w addl admin j pool s p s' :
  Forall addlOK addl ->
  mergePool w addl admin j pool s = (inr p, s') -> sumsUp p.
Proof.
  intros HF E. apply mergePool_inr in E.
  destruct E as [_ [_ [_ [Hb [Ht [Hd _]]]]]].
  destruct (nth_error addl j) as [r|] eqn:En; simpl in *.
  - apply nth_error_In in En. rewrite Forall_forall in HF.
    destruct (HF _ En) as [[b [t [Rb [Rt Rd]]]] _].
    exists (Z.of_N b), (Z.of_N t), (Z.of_N b + Z.of_N t).
    rewrite Hb, Ht, Hd, Rb, Rt, Rd. unfold JS.decimalN.
    rewrite plusFixed_decimal, !parseDecimal_decimal. auto.
  - exists 0, 0, 0. rewrite Hb, Ht, Hd. auto.
Qed.

(** C4.  Every pool returned by [getAllpools] has
    [totalDeposited = poolBalance + totalBorrowed], the three strings
    read as exact decimal integers; a pool merged without a live
    enrichment gets ['0'] for all three, and the equation still holds. *)
Theorem totalDeposited_is_poolBalance_plus_totalBorrowed :
  forall w,
    (forall a s l s', getAllpools w a s = (inr l, s') ->
       forall p, In p l -> sumsUp p) /\
    (forall addl admin i pool s p s',
       nth_error addl i = None ->
       mergePool w addl admin i pool s = (inr p, s') ->
       poolBalance p = "0"%string /\ totalBorrowed p = "0"%string /\
       totalDeposited p = "0"%string /\ sumsUp p).
Proof.
  intros w. split.
  - intros a s l s' E p Hin.
    destruct (getAllpools_inr _ _ _ _ _ E) as [pools [addl [admin [merged [-> [HA [_ HM]]]]]]].
    apply (Permutation_in _ (Permutation_sym (sort_perm comparePools merged))) in Hin.
    destruct (Forall2_In_r _ _ _ _ HM Hin) as [pool [_ [j [s1 [s2 G]]]]].
    eapply merged_sumsUp; eauto.
  - intros addl admin i pool s p s' Hn E.
    pose proof (mergePool_inr _ _ _ _ _ _ _ _ E) as [_ [_ [_ [Hb [Ht [Hd _]]]]]].
    rewrite Hn in Hb, Ht, Hd. simpl in Hb, Ht, Hd.
    repeat split; auto.
    exists 0, 0, 0. rewrite Hb, Ht, Hd. auto.
Qed.

Lemma comparePools_nftsOf x y :
  wholeNfts x -> wholeNfts y -> comparePools x y = nftsOf y - nftsOf x.
Proof.
  intros [n Hn] [m Hm]. unfold comparePools, nftsOf, JS.decimalN in *.
  rewrite Hn, Hm, !Number_decimal. reflexivity.
Qed.

Lemma merged_wholeNfts w addl admin j pool s p s' :
  Forall addlOK addl ->
  mergePool w addl admin j pool s = (inr p, s') -> wholeNfts p.
Proof.
  intros HF E. apply mergePool_inr in E.
  destruct E as [_ [_ [_ [_ [_ [_ [Hm _]]]]]]].
  destruct (nth_error addl j) as [r|] eqn:En.
  - apply nth_error_In in En. rewrite Forall_forall in HF.
    destruct (HF _ En) as [_ [n Rn]]. rewrite Rn in Hm.
    destruct n as [n|]; simpl in Hm.
    + exists n. exact Hm.
    + exists 0%N. exact Hm.
  - exists 0%N. exact Hm.
Qed.

(** C6.  The list returned by [getAllpools] is in descending order of
    [Number(maxNftsToBorrow)]: any earlier pool has at least the value
    of any later one, adjacent pairs in particular.  Pools with values
    [3, 10, 1] are sorted into [10, 3, 1]. *)
Theorem getAllpools_sorted_by_maxNftsToBorrow_descending :
  forall w a s l s', getAllpools w a s = (inr l, s') ->
    StronglySorted atLeast l /\
    (forall i p q, nth_error l i = Some p -> nth_error l (S i) = Some q -> atLeast p q) /\
    (forall p, map maxNftsToBorrow
                 (JS.sort comparePools [withMaxNftsToBorrow p "3";
                                        withMaxNftsToBorrow p "10";
                                        withMaxNftsToBorrow p "1"])
               = ["10"; "3"; "1"]%string).
Proof.
  intros w a s l s' E.
  assert (HS : StronglySorted atLeast l).
  { destruct (getAllpools_inr _ _ _ _ _ E) as [pools [addl [admin [merged [-> [HA [_ HM]]]]]]].
    assert (HW : Forall wholeNfts merged).
    { rewrite Forall_forall. intros p Hin.
      destruct (Forall2_In_r _ _ _ _ HM Hin) as [pool [_ [j [s1 [s2 G]]]]].
      eapply merged_wholeNfts; eauto. }
    apply (StronglySorted_refine (fun p q => nftsOf p >= nftsOf q) atLeast wholeNfts).
    - intros p q [n Hn] [m Hm] Hge. unfold nftsOf, atLeast, JS.decimalN in *.
      rewrite Hn, Hm, !Number_decimal in *. eauto.
    - eapply Permutation_Forall; [apply sort_perm|exact HW].
    - apply (sort_descending comparePools nftsOf wholeNfts comparePools_nftsOf).
      exact HW. }
  split; [exact HS|]. split.
  - apply StronglySorted_adjacent. exact HS.
  - intros p. reflexivity.
Qed.

(** C8.  With [chainId] absent, [getAllpools] returns the empty list and
    leaves the log of calls as it was, whatever the chain configuration
    would have been: the test comes before [chainConfig] is consulted,
    and nothing is thrown. *)
Theorem getAllpools_without_chainId_is_empty :
  forall w collectionAddress_ ownerAddress_ skipOracle_ s,
    let a := {| chainId := None;
                collectionAddress := collectionAddress_;
                ownerAddress := ownerAddress_;
                skipOracle := skipOracle_ |} in
    getAllpools w a s = (inr [], s) /\
    calls (snd (getAllpools w a s)) = calls s /\
    useGetAllPools w None collectionAddress_ ownerAddress_ skipOracle_ s = (inr [], s).
Proof. intros. repeat split. Qed.

End PoolsClaims.

(** ** The calls of the pool aggregator *)

Module CallFacts.
Import Pools PoolProps PoolsFacts LoansFacts.

Lemma Emits_getPoolAddlInfo w P pa pr nft qa l it so :
  PoolSide P -> Emits P (getPoolAddlInfo w pa pr nft qa l it so).
Proof.
  intros [Ho Hn Hb Hr _]. unfold getPoolAddlInfo. apply Emits_tryCatch.
  apply Emits_bind.
  { destruct so; [apply Silent_Emits, Silent_ret|apply Emits_await, Ho]. }
  intros price. apply Emits_bind; [apply Emits_await, Hn|]. intros cn.
  apply Emits_bind; [apply Emits_await, Hb|]. intros b.
  apply Emits_bind; [apply Emits_await, Hr|]. intros t.
  apply Emits_bind; [apply Emits_await, Hr|]. intros d.
  apply Emits_bind; [apply Emits_await, Hr|]. intros ci.
  apply Emits_bind; [apply Emits_await, Hr|]. intros o.
  apply Silent_Emits, Silent_ret.
Qed.

Lemma Emits_getAdminPoolInfo w P pa pr nft ep :
  PoolSide P -> Emits P (getAdminPoolInfo w pa pr nft ep).
Proof.
  intros [_ _ _ Hr Hl]. unfold getAdminPoolInfo, readUint. apply Emits_tryCatch.
  apply Emits_bind; [apply Emits_await, Hr|]. intros mp.
  apply Emits_bind; [apply Emits_await, Hr|]. intros d.
  apply Emits_bind; [apply Emits_await, Hr|]. intros ml.
  apply Emits_bind; [apply Emits_await, Hr|]. intros o.
  apply Emits_bind; [apply Emits_await, Hr|]. intros mi.
  apply Emits_bind; [apply Emits_await, Hr|]. intros mv.
  apply Emits_bind; [apply Emits_await, Hl|]. intros ls.
  apply Silent_Emits. apply Silent_bind.
  - apply Silent_mapM. intros x. apply Silent_lift.
  - intros la. apply Silent_ret.
Qed.

Lemma Silent_mergePool w addl admin i pool : Silent (mergePool w addl admin i pool).
Proof.
  unfold mergePool.
  apply Silent_bind; [apply Silent_lift|]. intros a1.
  apply Silent_bind; [apply Silent_lift|]. intros a2.
  apply Silent_bind; [apply Silent_lift|]. intros a3.
  apply Silent_ret.
Qed.

Lemma Silent_mapiM {A B} (f : nat -> A -> M B) l :
  (forall i x, Silent (f i x)) -> forall i, Silent (mapiM f i l).
Proof.
  intros Hf. induction l as [|x r IH]; simpl; intros i.
  - apply Silent_ret.
  - apply Silent_bind; [apply Hf|]. intros y.
    apply Silent_bind; [apply IH|]. intros ys. apply Silent_ret.
Qed.

Lemma Emits_enrich w P a provider qa ep pools :
  PoolSide P -> Emits P (enrich w a provider qa ep pools).
Proof.
  intros HP. unfold enrich.
  apply Emits_bind.
  { apply Emits_mapM. intros x. apply Emits_getPoolAddlInfo, HP. }
  intros addl. apply Emits_bind.
  { apply Emits_mapM. intros x. apply Emits_getAdminPoolInfo, HP. }
  intros admin. apply Silent_Emits. apply Silent_bind.
  - apply Silent_mapiM. intros i x. apply Silent_mergePool.
  - intros merged. apply Silent_ret.
Qed.

(** The log of a run of [getAllpools]: nothing if a guard stops it, the
    pool-list query followed by the calls of the enrichments if not. *)
Lemma getAllpools_calls w P a s r s' :
  PoolSide P ->
  getAllpools w a s = (r, s') ->
  match reachesIndexer w a with
  | Some ep =>
      exists rest, calls s' = calls s ++ Request ep (poolsQuery a) :: rest /\ Forall P rest
  | None => calls s' = calls s
  end.
Proof.
  intros HP E. unfold getAllpools, reachesIndexer in *.
  destruct (JS.truthyNum (chainId a)); simpl in E.
  2:{ inversion E; subst. reflexivity. }
  destruct (chainProvider (chainConfig w (chainId a))) as [provider|].
  2:{ inversion E; subst. reflexivity. }
  destruct (JS.whenTruthy (quoteApi (chainConfig w (chainId a)))) as [qa|].
  2:{ inversion E; subst. reflexivity. }
  destruct (JS.whenTruthy (subgraphUrl (chainConfig w (chainId a)))) as [ep|].
  2:{ inversion E; subst. reflexivity. }
  change (tryCatch "Couldn't get pools"
            (bind (requestPools w ep (poolsQuery a)) (enrich w a provider qa ep)) s
          = (r, s')) in E.
  unfold tryCatch, bind, requestPools, await in E.
  destruct (indexPools w (List.length (calls s)) ep (poolsQuery a)) as [e|pools].
  - inversion E; subst. simpl. exists []. auto.
  - destruct (enrich w a provider qa ep pools
                {| calls := calls s ++ [Request ep (poolsQuery a)];
                   clockReads := clockReads s |}) as [r0 s0] eqn:E0.
    destruct (Emits_enrich w P a provider qa ep pools HP _ _ _ E0) as [_ [new [Hl Hf]]].
    simpl in Hl. exists new. split; [|exact Hf].
    rewrite <- app_assoc in Hl. simpl in Hl.
    destruct r0; inversion E; subst; exact Hl.
Qed.


End CallFacts.

Module QueryClaims.
Import Pools PoolProps LoanProps PoolsFacts LoansFacts CallFacts.

Lemma filter_none {A} (f : A -> bool) l :
  Forall (fun x => f x = false) l -> List.filter f l = [].
Proof.
  induction 1 as [|x r Hx _ IH]; simpl; [reflexivity|]. rewrite Hx. exact IH.
Qed.

Lemma PoolSide_notPoolList : PoolSide (fun c => isPoolListQuery c = false).
Proof. constructor; reflexivity. Qed.

(** C7, amended.  A call of [getAllpools] that passes the [chainId] test
    and finds provider, oracle endpoint and indexer endpoint issues
    exactly one pool-list query: by owner if [ownerAddress] is given and
    non-empty, otherwise by collection if [collectionAddress] is given
    and non-empty, otherwise unfiltered.  A call stopped by either test
    issues no call at all. *)
Theorem getAllpools_issues_one_pool_query_by_precedence :
  forall w a s r s', getAllpools w a s = (r, s') ->
  exists new, calls s' = calls s ++ new /\
    match reachesIndexer w a with
    | None => new = []
    | Some ep =>
        exists q,
          List.filter isPoolListQuery new = [Request ep q] /\
          (forall o, JS.whenTruthy (ownerAddress a) = Some o ->
             q = getAllPoolsByOwner o) /\
          (forall c, JS.whenTruthy (ownerAddress a) = None ->
             JS.whenTruthy (collectionAddress a) = Some c ->
             q = getAllPoolsByCollectionQuery c) /\
          (JS.whenTruthy (ownerAddress a) = None ->
             JS.whenTruthy (collectionAddress a) = None ->
             q = getAllPoolsQuery)
    end.
Proof.
  intros w a s r s' E.
  pose proof (getAllpools_calls w _ a s r s' PoolSide_notPoolList E) as H.
  destruct (reachesIndexer w a) as [ep|].
  - destruct H as [rest [Hl Hf]].
    exists (Request ep (poolsQuery a) :: rest). split; [exact Hl|].
    exists (poolsQuery a). split.
    + simpl. replace (String.eqb (entity (poolsQuery a)) "pools") with true.
      * rewrite (filter_none _ _ Hf). reflexivity.
      * unfold poolsQuery.
        destruct (JS.whenTruthy (ownerAddress a));
          [|destruct (JS.whenTruthy (collectionAddress a))]; reflexivity.
    + unfold poolsQuery. repeat split.
      * intros o ->. reflexivity.
      * intros c -> ->. reflexivity.
      * intros -> ->. reflexivity.
  - exists []. rewrite app_nil_r. auto.
Qed.

(** C7 as stated fails: with [chainId] null no pool-list query is issued
    although [ownerAddress] is present, and with an empty [ownerAddress]
    the query issued is the unfiltered one. *)
Lemma getAllpools_pool_query_missing_or_unfiltered :
  let w := Sample.world Sample.oracle1 in
  List.filter isPoolListQuery
    (calls (snd (getAllpools w (Sample.args None (Some Sample.alice)) St0))) = [] /\
  List.filter isPoolListQuery
    (calls (snd (getAllpools w (Sample.args (Some 1) (Some ""%string)) St0)))
  = [Request "https://graph.example" getAllPoolsQuery].
Proof. split; vm_compute; reflexivity. Qed.










End QueryClaims.

(** ** The derived key of the admin info *)

Module KeyClaims.
Import Pools PoolProps PoolsFacts Decimals.

Local Open Scope string_scope.

Lemma append_inj_length a a' b b' :
  String.length a = String.length a' ->
  a ++ b = a' ++ b' -> a = a' /\ b = b'.
Proof.
  revert a'. induction a as [|c a IH]; intros [|c' a'] Hl H; simpl in *;
    try discriminate.
  - auto.
  - inversion H; subst. inversion Hl as [Hl'].
    destruct (IH _ Hl' H2) as [-> ->]. auto.
Qed.

Lemma join_inj l1 l2 :
  Forall2 (fun x y => String.length x = String.length y) l1 l2 ->
  JS.join l1 = JS.join l2 -> l1 = l2.
Proof.
  induction 1 as [|x y l1 l2 Hxy _ IH]; simpl; intros H; [reflexivity|].
  destruct (append_inj_length _ _ _ _ Hxy H) as [-> Hr].
  rewrite (IH Hr). reflexivity.
Qed.

(** C1, amended.  Two admin-info records built by [getAdminPoolInfo]
    whose keys are equal, and whose concatenated parts have pairwise the
    same lengths, were built for the same collection and pool and agree
    on [maxPrice], [maxInstantBorrow], [dailyBorrows], [maxDailyBorrows],
    [maxLoanLength], [minimumInterest], [maximumInterest] and
    [liquidators]. *)
Theorem equal_aligned_keys_give_equal_keyed_fields :
  forall secondsInAYear nft1 pool1 r1 liq1 nft2 pool2 r2 liq2,
    partsAlign secondsInAYear nft1 pool1 r1 liq1 nft2 pool2 r2 liq2 ->
    key (adminInfoOf secondsInAYear nft1 pool1 r1 liq1)
    = key (adminInfoOf secondsInAYear nft2 pool2 r2 liq2) ->
    nft1 = nft2 /\ pool1 = pool2 /\
    agreeOnKeyedFields (adminInfoOf secondsInAYear nft1 pool1 r1 liq1)
                       (adminInfoOf secondsInAYear nft2 pool2 r2 liq2).
Proof.
  intros siy nft1 pool1 r1 liq1 nft2 pool2 r2 liq2
    [H1 [H2 [H3 [H4 [H5 [H6 [H7 [H8 [H9 H10]]]]]]]]] K.
  unfold sameLength in *. simpl in K.
  destruct (append_inj_length _ _ _ _ H1 K) as [E1 K1]; clear K.
  destruct (append_inj_length _ _ _ _ H2 K1) as [E2 K2]; clear K1.
  destruct (append_inj_length _ _ _ _ H3 K2) as [E3 K3]; clear K2.
  destruct (append_inj_length _ _ _ _ H4 K3) as [E4 K4]; clear K3.
  destruct (append_inj_length _ _ _ _ H5 K4) as [E5 K5]; clear K4.
  destruct (append_inj_length _ _ _ _ H6 K5) as [E6 K6]; clear K5.
  destruct (append_inj_length _ _ _ _ H7 K6) as [E7 K7]; clear K6.
  destruct (append_inj_length _ _ _ _ H7 K7) as [_ K8]; clear K7.
  destruct (append_inj_length _ _ _ _ H8 K8) as [E8 K9]; clear K8.
  destruct (append_inj_length _ _ _ _ H9 K9) as [E9 K10]; clear K9.
  apply (join_inj _ _ H10) in K10.
  apply decimalN_inj in E3, E4, E5, E6, E7.
  split; [exact E1|]. split; [exact E2|].
  unfold agreeOnKeyedFields. simpl.
  rewrite E3, E4, E5, E6, E7, E8, E9, K10. repeat split.
Qed.

(** C1 as stated fails.  Two runs of [getAdminPoolInfo] that differ only
    in what [oracle()] answered give the same key and different records;
    and so do reads with the same oracle in which [maxPrice] is 1 and
    [maxInstantBorrow] 23 on one side, 12 and 3 on the other. *)
Lemma equal_keys_unequal_records :
  (exists x y,
     sampleAdmin Sample.oracle1 = Some x /\ sampleAdmin Sample.oracle2 = Some y /\
     key x = key y /\ adminOracle x <> adminOracle y) /\
  (let x := adminInfoOf 31536000 Sample.alice Sample.poolA
              (sampleReads Sample.oracle1 1 23) [] in
   let y := adminInfoOf 31536000 Sample.alice Sample.poolA
              (sampleReads Sample.oracle1 12 3) [] in
   key x = key y /\ adminOracle x = adminOracle y /\ maxPrice x <> maxPrice y).
Proof.
  split.
  - eexists; eexists. split; [vm_compute; reflexivity|].
    split; [vm_compute; reflexivity|].
    split; [vm_compute; reflexivity|]. vm_compute. discriminate.
  - cbv zeta. split; [vm_compute; reflexivity|].
    split; [reflexivity|].
    intro H. apply (f_equal Prim2SF) in H. vm_compute in H. discriminate H.
Qed.

End KeyClaims.

(** ** The properties at work in the sample world *)

Module Witnesses.

Local Open Scope string_scope.

Lemma toPay_witness :
  exists k, (clockReads St0 <= k < clockReads Sample.loansSt)%nat /\
            LoanProps.repaymentAt (clock Sample.w k) Sample.firstLoan.
Proof.
  apply (LoansClaims.toPay_is_principal_interest_lateFees
           Sample.w Sample.loanArgs St0 Sample.loans Sample.loansSt).
  - vm_compute. reflexivity.
  - left. reflexivity.
Defined.

Lemma liquidation_witness :
  Loans.getLoansToLiquidate Sample.w (Some Sample.graph) None false St0 = (inr [], St0) /\
  exists k, (clockReads St0 <= k < clockReads Sample.liquidatableSt)%nat /\
            Loans.deadline Sample.firstLoan - clock Sample.w k <= 0 /\
            ~ (clock Sample.w k < Loans.deadline Sample.firstLoan).
Proof.
  split.
  - apply (proj1 (LiquidationClaims.getLoansToLiquidate_only_past_deadline
                    Sample.w (Some Sample.graph) None false St0)).
    reflexivity.
  - apply (proj1 (proj2 (LiquidationClaims.getLoansToLiquidate_only_past_deadline
                    Sample.w (Some Sample.graph) (Some Sample.alice) false St0)
             Sample.liquidatable Sample.liquidatableSt eq_refl Sample.firstLoan
             (or_introl eq_refl))).
Defined.

Lemma useGetLoans_witness :
  Loans.useGetLoans Sample.w (Some 1) None (Some Sample.poolA) St0 = (inr [], St0).
Proof.
  apply (proj2 (proj2 (proj2
           (LiquidationClaims.useGetLoans_never_forwards_poolAddress
              Sample.w (Some 1) None (Some Sample.poolA))))).
  reflexivity.
Defined.

Lemma totalDeposited_witness :
  PoolProps.sumsUp Sample.firstPool /\
  (Pools.poolBalance Sample.bare = "0" /\ Pools.totalBorrowed Sample.bare = "0" /\
   Pools.totalDeposited Sample.bare = "0" /\ PoolProps.sumsUp Sample.bare).
Proof.
  split.
  - apply (proj1 (PoolsClaims.totalDeposited_is_poolBalance_plus_totalBorrowed Sample.w)
             (Sample.args (Some 1) None) St0 Sample.pools Sample.poolsSt).
    + vm_compute. reflexivity.
    + left. reflexivity.
  - apply (proj2 (PoolsClaims.totalDeposited_is_poolBalance_plus_totalBorrowed Sample.w)
             [] [] 0%nat (Sample.graphPool "A" Sample.poolA) St0 Sample.bare St0).
    + reflexivity.
    + vm_compute. reflexivity.
Defined.

Lemma sorted_witness :
  StronglySorted PoolProps.atLeast Sample.pools /\
  map Pools.maxNftsToBorrow Sample.pools = ["10"; "3"; "1"].
Proof.
  split; [|reflexivity].
  apply (PoolsClaims.getAllpools_sorted_by_maxNftsToBorrow_descending
           Sample.w (Sample.args (Some 1) None) St0 Sample.pools Sample.poolsSt).
  vm_compute. reflexivity.
Defined.

Lemma pool_query_witness :
  exists new, calls Sample.poolsSt = (calls St0 ++ new)%list /\
    exists q, List.filter isPoolListQuery new = [Request Sample.graph q] /\
              q = Pools.getAllPoolsQuery.
Proof.
  destruct (QueryClaims.getAllpools_issues_one_pool_query_by_precedence
              Sample.w (Sample.args (Some 1) None) St0 (inr Sample.pools) Sample.poolsSt)
    as [new [Hl H]].
  - vm_compute. reflexivity.
  - exists new. split; [exact Hl|].
    change (PoolProps.reachesIndexer Sample.w (Sample.args (Some 1) None))
      with (Some Sample.graph) in H.
    destruct H as [q [Hq [_ [_ Hn]]]].
    exists q. split; [exact Hq|]. apply Hn; reflexivity.
Defined.


Lemma key_witness :
  let x := Pools.adminInfoOf 31536000 Sample.alice Sample.poolA
             (PoolProps.sampleReads Sample.oracle1 12 3) [Sample.oracle1] in
  let y := Pools.adminInfoOf 31536000 Sample.alice Sample.poolA
             (PoolProps.sampleReads Sample.oracle2 12 3) [Sample.oracle1] in
  Sample.alice = Sample.alice /\ Sample.poolA = Sample.poolA /\
  PoolProps.agreeOnKeyedFields x y.
Proof.
  apply KeyClaims.equal_aligned_keys_give_equal_keyed_fields.
  - unfold PoolProps.partsAlign, PoolProps.sameLength.
    repeat split; repeat constructor.
  - vm_compute. reflexivity.
Defined.

End Witnesses.

(** ** More about the monad: failed runs, exact logs *)

Section MoreMonadFacts.

Lemma bind_inl {A B} (m : M A) (k : A -> M B) s e s' :
  bind m k s = (inl e, s') ->
  m s = (inl e, s') \/ exists a s1, m s = (inr a, s1) /\ k a s1 = (inl e, s').
Proof.
  unfold bind. destruct (m s) as [[e0|a] s1]; intros E.
  - inversion E; subst. left. reflexivity.
  - right. eauto.
Qed.

Lemma tryCatch_inl {A} fb (m : M A) s e s' :
  tryCatch fb m s = (inl e, s') ->
  exists e0, m s = (inl e0, s') /\ e = rethrow fb e0.
Proof.
  unfold tryCatch. destruct (m s) as [[e0|a] s1]; intros E; inversion E; subst.
  eauto.
Qed.

Lemma mapM_Forall2 {A B} (f : A -> M B) l :
  forall s ys s', mapM f l s = (inr ys, s') ->
    Forall2 (fun x y => exists s1 s2, f x s1 = (inr y, s2)) l ys.
Proof.
  induction l as [|x l IH]; simpl; intros s ys s' E.
  - apply ret_inr in E. destruct E as [<- _]. constructor.
  - apply bind_inr in E. destruct E as [y [s1 [E1 E]]].
    apply bind_inr in E. destruct E as [ys' [s2 [E2 E]]].
    apply ret_inr in E. destruct E as [<- _].
    constructor; [eauto|eapply IH; eauto].
Qed.

(** A failed [mapM] failed at its first failing element. *)
Lemma mapM_inl {A B} (f : A -> M B) l :
  forall s e s', mapM f l s = (inl e, s') ->
    exists pre x post ys s1,
      l = pre ++ x :: post /\
      mapM f pre s = (inr ys, s1) /\
      f x s1 = (inl e, s').
Proof.
  induction l as [|x l IH]; simpl; intros s e s' E; [discriminate|].
  apply bind_inl in E. destruct E as [E|[y [s1 [E1 E]]]].
  - exists [], x, l, [], s. repeat split; auto.
  - apply bind_inl in E. destruct E as [E|[ys [s2 [E2 E]]]]; [|discriminate].
    destruct (IH _ _ _ E) as [pre [x0 [post [ys [t [-> [Hp Hx]]]]]]].
    exists (x :: pre), x0, post, (y :: ys), t. repeat split; auto.
    simpl. unfold bind at 1. rewrite E1. unfold bind. rewrite Hp. reflexivity.
Qed.

(** [mapM] succeeds when its callback succeeds on every element from
    every state. *)
Lemma mapM_succeeds {A B} (f : A -> M B) l :
  Forall (fun x => forall s, exists y s', f x s = (inr y, s')) l ->
  forall s, exists ys s', mapM f l s = (inr ys, s').
Proof.
  induction 1 as [|x l Hx _ IH]; intros s; simpl.
  - exists [], s. reflexivity.
  - destruct (Hx s) as [y [s1 E1]]. destruct (IH s1) as [ys [s2 E2]].
    exists (y :: ys), s2. unfold bind. rewrite E1, E2. reflexivity.
Qed.

(** The log of a successful [mapM] whose callback logs [g x] on [x]. *)
Lemma mapM_log {A B} (f : A -> M B) (g : A -> list Call) l :
  (forall x s r s', f x s = (r, s') -> calls s' = calls s ++ g x) ->
  forall s ys s', mapM f l s = (inr ys, s') ->
    calls s' = calls s ++ flat_map g l.
Proof.
  intros Hf. induction l as [|x l IH]; simpl; intros s ys s' E.
  - apply ret_inr in E. destruct E as [_ <-]. rewrite app_nil_r. reflexivity.
  - apply bind_inr in E. destruct E as [y [s1 [E1 E]]].
    apply bind_inr in E. destruct E as [ys' [s2 [E2 E]]].
    apply ret_inr in E. destruct E as [_ <-].
    rewrite (IH _ _ _ E2), (Hf _ _ _ _ E1), app_assoc. reflexivity.
Qed.

Lemma Forall2_nth_r {A B} (R : A -> B -> Prop) l l' :
  Forall2 R l l' ->
  forall j x, nth_error l j = Some x -> exists y, nth_error l' j = Some y /\ R x y.
Proof.
  induction 1 as [|a b l l' Hab _ IH]; intros j x Hj.
  - destruct j; discriminate.
  - destruct j as [|j]; simpl in *.
    + inversion Hj; subst. eauto.
    + apply IH. exact Hj.
Qed.

End MoreMonadFacts.

(** ** Further properties of [getLoans] and [getLoansToLiquidate] *)

Module LoansMore.
Import Loans LoanProps MoreLoanProps LoansFacts.
Local Open Scope list_scope.

Lemma toLoan_shows w t row s ln s' :
  toLoan w t row s = (inr ln, s') ->
  shows t row ln /\
  getAddress w (lp_address (gl_pool row)) = inr (lp_address (pool ln)).
Proof.
  unfold toLoan, infoToRepayLoan. intros E.
  apply bind_inr in E. destruct E as [p [s1 [_ E]]].
  apply bind_inr in E. destruct E as [addr [s2 [E2 E]]].
  apply lift_inr in E2. destruct E2 as [Ha ->].
  apply ret_inr in E. destruct E as [<- <-]. simpl.
  unfold shows. simpl. repeat split; auto.
Qed.

Lemma toLoan_inl w t row s e s' :
  toLoan w t row s = (inl e, s') ->
  getAddress w (lp_address (gl_pool row)) = inl e.
Proof.
  unfold toLoan, infoToRepayLoan, bind, dateNow, ret, lift. simpl.
  destruct (getAddress w (lp_address (gl_pool row))); intros E; inversion E.
  reflexivity.
Qed.

Lemma toLoan_succeeds w t row :
  accepted w row -> forall s, exists ln s', toLoan w t row s = (inr ln, s').
Proof.
  intros [c Hc] s. unfold toLoan, infoToRepayLoan, bind, dateNow, ret, lift. simpl.
  rewrite Hc. eauto.
Qed.

Lemma getLoans_unfold w a ep :
  noAddress a = false ->
  JS.whenTruthy (endpoint a) = Some ep ->
  getLoans w a =
    tryCatch loansFallback
      (loans <- requestLoans w ep (queryOf a) ;;
       mapped <- mapM (toLoan w (isTestnet_ a)) loans ;;
       now <- dateNow w ;;
       ret (sortLoans now mapped)).
Proof.
  unfold getLoans, noAddress, queryOf, loansFallback. intros -> ->. reflexivity.
Qed.

Lemma tryCatch_run {A} fb (m : M A) s r s' :
  tryCatch fb m s = (r, s') -> exists r0, m s = (r0, s').
Proof.
  unfold tryCatch. destruct (m s) as [[e|a] s1]; intros E; inversion E; subst; eauto.
Qed.

Lemma getLoans_calls w a s r s' :
  getLoans w a s = (r, s') -> calls s' = calls s ++ requestsOf a.
Proof.
  intros E. unfold requestsOf.
  destruct (noAddress a) eqn:Hn.
  - unfold getLoans in E. unfold noAddress in Hn. rewrite Hn in E.
    inversion E; subst. rewrite app_nil_r. reflexivity.
  - destruct (JS.whenTruthy (endpoint a)) as [ep|] eqn:He.
    + rewrite (getLoans_unfold w a ep Hn He) in E.
      apply tryCatch_run in E. destruct E as [r0 E].
      unfold bind at 1 in E.
      destruct (requestLoans w ep (queryOf a) s) as [[e|rows] s1] eqn:E1;
        unfold requestLoans, await in E1; inversion E1; subst; clear E1.
      * inversion E; subst. reflexivity.
      * unfold bind at 1 in E.
        match type of E with
        | context [mapM ?f rows ?st] =>
            destruct (mapM f rows st) as [[e|mapped] s2] eqn:E2;
            destruct (Silent_mapM f rows (fun x => Silent_toLoan w _ x) _ _ _ E2)
              as [_ Hc]
        end.
        -- inversion E; subst. exact Hc.
        -- unfold bind, dateNow, ret in E. inversion E; subst. simpl. exact Hc.
    + unfold getLoans in E. unfold noAddress in Hn. rewrite Hn, He in E.
      inversion E; subst. rewrite app_nil_r. reflexivity.
Qed.

(** X1.  Whatever its outcome, a run of [getLoans] appends to the log of
    calls exactly this: nothing when it has neither a pool address nor a
    user address, nothing when it has no endpoint, and otherwise the one
    request to the endpoint, with the query by pool if a pool address is
    given and the query by user if not. *)
Theorem getLoans_log_is_the_one_request w a s r s' :
  getLoans w a s = (r, s') -> calls s' = calls s ++ requestsOf a.
Proof. apply getLoans_calls. Qed.

(** X2.  A successful [getLoans] that has an address returns one record
    per row of the indexer's answer to its query: the records are, up
    to the final reordering, the rows in order, each showing the fields
    of its row (the deadline in milliseconds, the token URI blanked on a
    testnet) and carrying [getAddress]'s form of the row's pool
    address. *)
Theorem getLoans_one_record_per_row w a s l s' :
  noAddress a = false ->
  getLoans w a s = (inr l, s') ->
  exists ep rows mapped,
    JS.whenTruthy (endpoint a) = Some ep /\
    indexLoans w (List.length (calls s)) ep (queryOf a) = inr rows /\
    Forall2 (fun row ln =>
               shows (isTestnet_ a) row ln /\
               getAddress w (lp_address (gl_pool row)) = inr (lp_address (pool ln)))
            rows mapped /\
    Permutation mapped l.
Proof.
  intros Hn E.
  destruct (JS.whenTruthy (endpoint a)) as [ep|] eqn:He.
  - rewrite (getLoans_unfold w a ep Hn He) in E.
    apply tryCatch_inr in E.
    apply bind_inr in E. destruct E as [rows [s1 [E1 E]]].
    apply bind_inr in E. destruct E as [mapped [s2 [E2 E]]].
    apply bind_inr in E. destruct E as [now [s3 [_ E]]].
    apply ret_inr in E. destruct E as [<- _].
    unfold requestLoans, await in E1. inversion E1; subst; clear E1.
    exists ep, rows, mapped. repeat split; auto.
    + apply mapM_Forall2 in E2.
      eapply Forall2_impl; [|exact E2].
      intros row ln [t1 [t2 G]]. eapply toLoan_shows; eauto.
    + rewrite sortLoans_sortByDeadline. apply sortByDeadline_perm.
  - unfold getLoans in E. unfold noAddress in Hn. rewrite Hn, He in E. discriminate.
Qed.

(** X3.  [getLoans] with an address succeeds exactly when it has an
    endpoint, the indexer answers its query, and [getAddress] accepts
    the pool address of every row of the answer. *)
Theorem getLoans_succeeds_iff w a s :
  noAddress a = false ->
  ((exists l s', getLoans w a s = (inr l, s')) <->
   (exists ep rows,
      JS.whenTruthy (endpoint a) = Some ep /\
      indexLoans w (List.length (calls s)) ep (queryOf a) = inr rows /\
      Forall (accepted w) rows)).
Proof.
  intros Hn. split.
  - intros [l [s' E]].
    destruct (JS.whenTruthy (endpoint a)) as [ep|] eqn:He.
    + rewrite (getLoans_unfold w a ep Hn He) in E.
      apply tryCatch_inr in E.
      apply bind_inr in E. destruct E as [rows [s1 [E1 E]]].
      apply bind_inr in E. destruct E as [mapped [s2 [E2 _]]].
      unfold requestLoans, await in E1. inversion E1; subst; clear E1.
      exists ep, rows. repeat split; auto.
      apply mapM_Forall2 in E2. clear - E2.
      induction E2 as [|row ln rows mapped [t1 [t2 G]] _ IH]; constructor; auto.
      apply toLoan_shows in G. destruct G as [_ G]. eexists; eauto.
    + unfold getLoans in E. unfold noAddress in Hn. rewrite Hn, He in E. discriminate.
  - intros [ep [rows [He [Hi Hacc]]]].
    rewrite (getLoans_unfold w a ep Hn He).
    assert (Hm : forall st, exists mapped s2,
               mapM (toLoan w (isTestnet_ a)) rows st = (inr mapped, s2)).
    { apply mapM_succeeds. eapply Forall_impl; [|exact Hacc].
      intros row H. apply toLoan_succeeds. exact H. }
    unfold tryCatch, bind, requestLoans, await. rewrite Hi.
    destruct (Hm {| calls := calls s ++ [Request ep (queryOf a)];
                    clockReads := clockReads s |}) as [mapped [s2 E2]].
    rewrite E2. unfold dateNow, ret. eauto.
Qed.

(** X4.  The three ways [getLoans] fails.  The error thrown is a fresh
    [Error] holding only a message.  Either there is an address but no
    endpoint: the message is [Error: Invalid arguments] and nothing was
    called.  Or the indexer's error is rethrown.  Or the error of
    [getAddress] on the first row whose pool address it rejects is
    rethrown.  A rethrown error keeps its message, takes its [reason] if
    the message is empty, and the fallback text if there is neither. *)
Theorem getLoans_failure w a s e s' :
  getLoans w a s = (inl e, s') ->
  noAddress a = false /\
  reason e = None /\
  ((JS.whenTruthy (endpoint a) = None /\
    message e = "Error: Invalid arguments"%string /\ s' = s) \/
   (exists ep e0,
      JS.whenTruthy (endpoint a) = Some ep /\
      indexLoans w (List.length (calls s)) ep (queryOf a) = inl e0 /\
      e = rethrow loansFallback e0) \/
   (exists ep pre row post e0,
      JS.whenTruthy (endpoint a) = Some ep /\
      indexLoans w (List.length (calls s)) ep (queryOf a) = inr (pre ++ row :: post) /\
      Forall (accepted w) pre /\
      getAddress w (lp_address (gl_pool row)) = inl e0 /\
      e = rethrow loansFallback e0)).
Proof.
  intros E.
  destruct (noAddress a) eqn:Hn.
  { unfold getLoans in E. unfold noAddress in Hn. rewrite Hn in E. discriminate. }
  split; [reflexivity|].
  destruct (JS.whenTruthy (endpoint a)) as [ep|] eqn:He.
  - rewrite (getLoans_unfold w a ep Hn He) in E.
    apply tryCatch_inl in E. destruct E as [e0 [E ->]].
    split; [reflexivity|]. right.
    apply bind_inl in E. destruct E as [E|[rows [s1 [E1 E]]]].
    + left. unfold requestLoans, await in E. inversion E; subst. eauto.
    + right. unfold requestLoans, await in E1. inversion E1; subst; clear E1.
      apply bind_inl in E. destruct E as [E|[mapped [s2 [_ E]]]].
      * apply mapM_inl in E.
        destruct E as [pre [row [post [ys [t [-> [Hp Hx]]]]]]].
        apply toLoan_inl in Hx.
        exists ep, pre, row, post, e0. repeat split; auto.
        apply mapM_Forall2 in Hp. clear - Hp.
        induction Hp as [|r0 ln rows mapped [t1 [t2 G]] _ IH]; constructor; auto.
        apply toLoan_shows in G. destruct G as [_ G]. eexists; eauto.
      * unfold bind, dateNow, ret in E. discriminate.
  - unfold getLoans in E. unfold noAddress in Hn. rewrite Hn, He in E.
    inversion E; subst. split; [reflexivity|]. left. auto.
Qed.

(** X5.  On a testnet no returned loan carries a token URI. *)
Theorem getLoans_testnet_blanks_tokenUri w a s l s' :
  isTestnet_ a = true ->
  getLoans w a s = (inr l, s') ->
  Forall (fun ln => tokenUri ln = EmptyString) l.
Proof.
  intros Ht E. apply Forall_forall. intros ln Hin.
  destruct (getLoans_inr _ _ _ _ _ E) as [raws [mapped [now0 [-> HF]]]].
  rewrite sortLoans_sortByDeadline in Hin.
  apply (Permutation_in _ (Permutation_sym (sortByDeadline_perm mapped))) in Hin.
  destruct (Forall2_In_r _ _ _ _ HF Hin) as [raw [_ [s1 [s2 [_ [_ G]]]]]].
  apply toLoan_shows in G. destruct G as [G _].
  destruct G as [_ [_ [_ [_ [_ [_ [G _]]]]]]]. rewrite Ht in G. exact G.
Qed.


Lemma whenTruthy_Some x y :
  JS.whenTruthy x = Some y -> x = Some y /\ JS.truthy (Some y) = true.
Proof.
  unfold JS.whenTruthy. destruct (JS.truthy x) eqn:H; [|discriminate].
  intros ->. auto.
Qed.

Lemma requestsOf_poolArgs ep ep' t p :
  JS.whenTruthy ep = Some ep' ->
  requestsOf (poolArgs ep' t p) =
    if JS.truthy (Some p) then [Request ep' (loansByPoolQuery p)] else [].
Proof.
  intros H. apply whenTruthy_Some in H. destruct H as [_ H].
  unfold requestsOf, noAddress, queryOf, poolArgs, JS.whenTruthy. simpl endpoint.
  simpl poolAddress. simpl userAddress. rewrite H.
  destruct (JS.truthy (Some p)); reflexivity.
Qed.

Lemma flat_map_when {A B} (c : A -> bool) (f : A -> B) l :
  flat_map (fun x => if c x then [f x] else []) l = map f (List.filter c l).
Proof.
  induction l as [|x l IH]; simpl; [reflexivity|].
  destruct (c x); simpl; rewrite IH; reflexivity.
Qed.

Lemma keepLiquidatable_frozen w T l :
  (forall k, clock w k = T) ->
  forall s out s', keepLiquidatable w l s = (inr out, s') ->
    out = List.filter (fun ln => deadline ln <=? T) l.
Proof.
  intros HT. induction l as [|x r IH]; simpl; intros s out s' E.
  - apply ret_inr in E. destruct E as [<- _]. reflexivity.
  - apply bind_inr in E. destruct E as [now [s1 [E1 E]]].
    apply bind_inr in E. destruct E as [rest [s2 [E2 E]]].
    apply ret_inr in E. destruct E as [<- _].
    apply dateNow_inr in E1. destruct E1 as [-> _]. rewrite HT.
    rewrite (IH _ _ _ E2).
    destruct (Z.leb_spec (deadline x - T) 0), (Z.leb_spec (deadline x) T);
      try reflexivity; lia.
Qed.

Lemma keepLiquidatable_never_throws w l :
  forall s e s', keepLiquidatable w l s <> (inl e, s').
Proof.
  induction l as [|x r IH]; simpl; intros s e s' E.
  - discriminate.
  - unfold bind at 1, dateNow in E. unfold bind at 1 in E.
    match type of E with
    | context [keepLiquidatable w r ?st] =>
        destruct (keepLiquidatable w r st) as [[e1|rest] s2] eqn:E2
    end.
    + eapply IH; eauto.
    + discriminate.
Qed.

Lemma getLoansToLiquidate_unfold w ep liq t liquidator ep' :
  JS.whenTruthy liq = Some liquidator ->
  JS.whenTruthy ep = Some ep' ->
  getLoansToLiquidate w ep liq t =
    tryCatch loansFallback
      (pools <- requestLiquidators w ep' (liquidatorsQuery liquidator) ;;
       loans <- mapM (fun p => getLoans w (poolArgs ep' t p)) pools ;;
       keepLiquidatable w (List.concat loans)).
Proof. unfold getLoansToLiquidate. intros -> ->. reflexivity. Qed.

Lemma getLoansToLiquidate_inr w ep liq t liquidator s out s' :
  JS.whenTruthy liq = Some liquidator ->
  getLoansToLiquidate w ep liq t s = (inr out, s') ->
  exists ep' pools perPool s1 s2,
    JS.whenTruthy ep = Some ep' /\
    indexLiquidators w (List.length (calls s)) ep' (liquidatorsQuery liquidator) = inr pools /\
    calls s1 = calls s ++ [Request ep' (liquidatorsQuery liquidator)] /\
    mapM (fun p => getLoans w (poolArgs ep' t p)) pools s1 = (inr perPool, s2) /\
    keepLiquidatable w (List.concat perPool) s2 = (inr out, s').
Proof.
  intros Hl E.
  destruct (JS.whenTruthy ep) as [ep'|] eqn:He.
  - rewrite (getLoansToLiquidate_unfold w ep liq t liquidator ep' Hl He) in E.
    apply tryCatch_inr in E.
    apply bind_inr in E. destruct E as [pools [s1 [E1 E]]].
    apply bind_inr in E. destruct E as [perPool [s2 [E2 E]]].
    unfold requestLiquidators, await in E1. inversion E1; subst; clear E1.
    exists ep', pools, perPool,
      {| calls := calls s ++ [Request ep' (liquidatorsQuery liquidator)];
         clockReads := clockReads s |}, s2.
    repeat split; auto.
  - unfold getLoansToLiquidate in E. rewrite Hl, He in E. discriminate.
Qed.

(** X6.  With a clock that stands still at [T], a successful
    [getLoansToLiquidate] returns the loans of the liquidator's pools,
    pool after pool in the order the indexer lists the pools and within
    a pool in the order [getLoans] returns them, keeping exactly those
    whose deadline is not after [T]. *)
Theorem getLoansToLiquidate_filters_concatenation w T ep liq t liquidator s out s' :
  (forall k, clock w k = T) ->
  JS.whenTruthy liq = Some liquidator ->
  getLoansToLiquidate w ep liq t s = (inr out, s') ->
  exists ep' pools perPool,
    JS.whenTruthy ep = Some ep' /\
    indexLiquidators w (List.length (calls s)) ep' (liquidatorsQuery liquidator) = inr pools /\
    Forall2 (fun p l => exists s1 s2, getLoans w (poolArgs ep' t p) s1 = (inr l, s2))
            pools perPool /\
    out = List.filter (fun ln => deadline ln <=? T) (List.concat perPool).
Proof.
  intros HT Hl E.
  destruct (getLoansToLiquidate_inr _ _ _ _ _ _ _ _ Hl E)
    as [ep' [pools [perPool [s1 [s2 [He [Hi [_ [E2 E3]]]]]]]]].
  exists ep', pools, perPool. repeat split; auto.
  - apply mapM_Forall2 in E2. exact E2.
  - eapply keepLiquidatable_frozen; eauto.
Qed.

(** X7.  The calls of a successful [getLoansToLiquidate] are, in this
    order: the query for the liquidator's pools, then one query of loans
    by pool for each pool address listed that is not empty; nothing
    else. *)
Theorem getLoansToLiquidate_log w ep liq t liquidator s out s' :
  JS.whenTruthy liq = Some liquidator ->
  getLoansToLiquidate w ep liq t s = (inr out, s') ->
  exists ep' pools,
    JS.whenTruthy ep = Some ep' /\
    indexLiquidators w (List.length (calls s)) ep' (liquidatorsQuery liquidator) = inr pools /\
    calls s' =
      calls s ++
      Request ep' (liquidatorsQuery liquidator) ::
      map (fun p => Request ep' (loansByPoolQuery p))
          (List.filter (fun p => JS.truthy (Some p)) pools).
Proof.
  intros Hl E.
  destruct (getLoansToLiquidate_inr _ _ _ _ _ _ _ _ Hl E)
    as [ep' [pools [perPool [s1 [s2 [He [Hi [H1 [E2 E3]]]]]]]]].
  exists ep', pools. repeat split; auto.
  destruct (Silent_keepLiquidatable w _ _ _ _ E3) as [_ ->].
  rewrite (mapM_log _ (fun p => requestsOf (poolArgs ep' t p)) pools
             (fun p st r st' G => getLoans_calls w _ st r st' G)
             _ _ _ E2).
  rewrite H1, <- app_assoc. simpl. f_equal. f_equal.
  rewrite <- flat_map_when. apply flat_map_ext.
  intros p. apply (requestsOf_poolArgs ep). exact He.
Qed.


Lemma getLoans_error_is_fresh w a s e s' :
  getLoans w a s = (inl e, s') -> reason e = None.
Proof.
  unfold getLoans. intros E. apply tryCatch_inl in E.
  destruct E as [e0 [_ ->]]. reflexivity.
Qed.

Lemma rethrow_fresh fb e :
  reason e = None ->
  message (rethrow fb e) = if String.eqb (message e) EmptyString then fb else message e.
Proof.
  intros H. unfold rethrow. simpl. rewrite H.
  destruct (message e); reflexivity.
Qed.

(** X8.  The ways [getLoansToLiquidate] fails.  It never fails without
    a liquidator address, and its last loop never throws.  With an
    address, either the endpoint is missing (message [Error: Invalid
    arguments], nothing called), or the error of the liquidators query
    is rethrown, or the [getLoans] of one of the liquidator's pools
    threw [e0], and the message of [e0] is passed on unchanged, the
    fallback text standing in for an empty one. *)
Theorem getLoansToLiquidate_failure w ep liq t s e s' :
  getLoansToLiquidate w ep liq t s = (inl e, s') ->
  exists liquidator,
    JS.whenTruthy liq = Some liquidator /\
    reason e = None /\
    ((JS.whenTruthy ep = None /\
      message e = "Error: Invalid arguments"%string /\ s' = s) \/
     (exists ep' e0,
        JS.whenTruthy ep = Some ep' /\
        indexLiquidators w (List.length (calls s)) ep' (liquidatorsQuery liquidator)
          = inl e0 /\
        e = rethrow loansFallback e0) \/
     (exists ep' pools p s1 s2 e0,
        JS.whenTruthy ep = Some ep' /\
        indexLiquidators w (List.length (calls s)) ep' (liquidatorsQuery liquidator)
          = inr pools /\
        In p pools /\
        getLoans w (poolArgs ep' t p) s1 = (inl e0, s2) /\
        message e =
          if String.eqb (message e0) EmptyString then loansFallback else message e0)).
Proof.
  intros E.
  destruct (JS.whenTruthy liq) as [liquidator|] eqn:Hl.
  2:{ unfold getLoansToLiquidate in E. rewrite Hl in E. discriminate. }
  exists liquidator. split; [reflexivity|].
  destruct (JS.whenTruthy ep) as [ep'|] eqn:He.
  - rewrite (getLoansToLiquidate_unfold w ep liq t liquidator ep' Hl He) in E.
    apply tryCatch_inl in E. destruct E as [e0 [E ->]].
    split; [reflexivity|]. right.
    apply bind_inl in E. destruct E as [E|[pools [s1 [E1 E]]]].
    + left. unfold requestLiquidators, await in E. inversion E; subst. eauto.
    + right. unfold requestLiquidators, await in E1. inversion E1; subst; clear E1.
      apply bind_inl in E. destruct E as [E|[perPool [s2 [_ E]]]].
      * apply mapM_inl in E.
        destruct E as [pre [p [post [ys [s1 [-> [Hp Hx]]]]]]].
        exists ep', (pre ++ p :: post), p, s1, s', e0. repeat split; auto.
        -- apply in_or_app. right. left. reflexivity.
        -- apply rethrow_fresh. eapply getLoans_error_is_fresh; eauto.
      * exfalso. eapply keepLiquidatable_never_throws; eauto.
  - unfold getLoansToLiquidate in E. rewrite Hl, He in E.
    inversion E; subst. split; [reflexivity|]. left. auto.
Qed.

Lemma roundHalfAway_thousandths n :
  0 <= n ->
  JS.roundHalfAway (inject_Z n / inject_Z 1000)%Q = (n + 500) / 1000.
Proof.
  intros Hn.
  change (JS.roundHalfAway (inject_Z n / inject_Z 1000)%Q)
    with (Z.sgn (n * 1) * ((2 * Z.abs (n * 1) + 1000) / (2 * 1000))).
  rewrite Z.mul_1_r.
  destruct (Z.eq_dec n 0) as [->|Hz]; [reflexivity|].
  rewrite Z.sgn_pos by lia. rewrite Z.abs_eq by lia. rewrite Z.mul_1_l.
  replace (2 * n + 1000) with ((n + 500) * 2) by lia.
  rewrite (Z.mul_comm 2 1000).
  apply Z.div_mul_cancel_r; lia.
Qed.

(** X9.  [blockTimestamp] is the clock reading rounded to the nearest
    second, halves upwards: for a reading of [nowMs >= 0] milliseconds
    it is the quotient of [nowMs + 500] by 1000. *)
Theorem blockTimestampOf_rounds_to_nearest_second nowMs :
  0 <= nowMs ->
  blockTimestampOf nowMs = (nowMs + 500) / 1000.
Proof. intros H. unfold blockTimestampOf. apply roundHalfAway_thousandths, H. Qed.

(** X10.  Late fees set in half a second after the deadline: at a clock
    reading of [nowMs >= 0] milliseconds, [lateFees] is the late-fee
    quotient if [nowMs] is at least 500 ms past the deadline (held in
    seconds by the indexer), and zero before that. *)
Theorem lateFees_start_half_a_second_late nowMs loan :
  0 <= nowMs ->
  lateFeesAt (blockTimestampOf nowMs) loan =
    if 1000 * Z.of_N (gl_deadline loan) + 500 <=? nowMs
    then ((JS.toNumber (blockTimestampOf nowMs - Z.of_N (gl_deadline loan))
           * JS.toNumber (Z.of_N (gl_borrowed loan)))
          / JS.toNumber SECONDS_IN_A_DAY)%float
    else 0%float.
Proof.
  intros H. unfold lateFeesAt. cbv zeta.
  rewrite (roundHalfAway_thousandths nowMs H : blockTimestampOf nowMs = _).
  set (D := Z.of_N (gl_deadline loan)).
  destruct (Z.ltb_spec D ((nowMs + 500) / 1000)) as [Hlt|Hge];
    destruct (Z.leb_spec (1000 * D + 500) nowMs) as [Hle|Hgt]; try reflexivity; exfalso.
  - assert ((nowMs + 500) / 1000 <= D); [|lia].
    apply Z.lt_succ_r. apply Z.div_lt_upper_bound; lia.
  - assert (D + 1 <= (nowMs + 500) / 1000); [|lia].
    apply Z.div_le_lower_bound; lia.
Qed.

End LoansMore.

(** ** Further properties of the pool aggregator *)

Section CountingCalls.
Import MorePoolProps.
Local Open Scope list_scope.

Lemma Adds_ret {A} (a : A) : Adds 0 (ret a).
Proof.
  intros s b s' E. apply ret_inr in E. destruct E as [_ <-].
  exists []. rewrite app_nil_r. auto.
Qed.

Lemma Adds_Silent {A} (m : M A) : Silent m -> Adds 0 m.
Proof.
  intros H s a s' E. destruct (H _ _ _ E) as [_ ->].
  exists []. rewrite app_nil_r. auto.
Qed.

Lemma Adds_await {A} c (answer : nat -> result A) : Adds 1 (await c answer).
Proof.
  intros s a s' E. unfold await in E. inversion E; subst. simpl.
  exists [c]. auto.
Qed.

Lemma Adds_bind {A B} n k (m : M A) (f : A -> M B) :
  Adds n m -> (forall a, Adds k (f a)) -> Adds (n + k) (bind m f).
Proof.
  intros Hm Hf s b s' E.
  apply bind_inr in E. destruct E as [a [s1 [E1 E2]]].
  destruct (Hm _ _ _ E1) as [new1 [H1 L1]].
  destruct (Hf a _ _ _ E2) as [new2 [H2 L2]].
  exists (new1 ++ new2). split.
  - rewrite H2, H1, app_assoc. reflexivity.
  - rewrite length_app. lia.
Qed.

Lemma Adds_tryCatch {A} n fb (m : M A) : Adds n m -> Adds n (tryCatch fb m).
Proof. intros H s a s' E. apply tryCatch_inr in E. eapply H; eauto. Qed.

Lemma Adds_mapM {A B} n (f : A -> M B) l :
  (forall x, Adds n (f x)) -> Adds (List.length l * n) (mapM f l).
Proof.
  intros Hf. induction l as [|x l IH]; simpl.
  - apply Adds_ret.
  - apply (Adds_bind n (List.length l * n)); [apply Hf|]. intros y.
    replace (List.length l * n)%nat with (List.length l * n + 0)%nat by lia.
    apply Adds_bind; [exact IH|]. intros ys. apply Adds_ret.
Qed.
End CountingCalls.

Section Stability.
Context {A : Type} (cmp : A -> A -> Z) (key : A -> Z).
Hypothesis cmp_key : forall x y, 0 < cmp x y -> key x <> key y.
Local Open Scope list_scope.

Lemma insert_stable x l v :
  List.filter (fun p => key p =? v) (JS.insert cmp x l)
  = List.filter (fun p => key p =? v) (x :: l).
Proof.
  induction l as [|y r IH]; [reflexivity|].
  simpl JS.insert. destruct (Z.ltb_spec 0 (cmp x y)) as [H|H]; [|reflexivity].
  apply cmp_key in H.
  simpl. simpl in IH. rewrite IH.
  destruct (Z.eqb_spec (key x) v), (Z.eqb_spec (key y) v); try reflexivity.
  congruence.
Qed.

Lemma sort_stable l v :
  List.filter (fun p => key p =? v) (JS.sort cmp l)
  = List.filter (fun p => key p =? v) l.
Proof.
  induction l as [|x r IH]; [reflexivity|].
  simpl JS.sort. rewrite insert_stable. simpl. rewrite IH. reflexivity.
Qed.
End Stability.

Module PoolsMore.
Import Pools PoolProps MorePoolProps PoolsFacts LoansFacts CallFacts.
Local Open Scope list_scope.

Lemma getAllpools_unfold w a provider qa ep :
  JS.truthyNum (chainId a) = true ->
  chainProvider (chainConfig w (chainId a)) = Some provider ->
  JS.whenTruthy (quoteApi (chainConfig w (chainId a))) = Some qa ->
  JS.whenTruthy (subgraphUrl (chainConfig w (chainId a))) = Some ep ->
  getAllpools w a =
    tryCatch poolsFallback (bind (requestPools w ep (poolsQuery a)) (enrich w a provider qa ep)).
Proof.
  unfold getAllpools, poolsFallback. intros -> -> -> ->. reflexivity.
Qed.

Lemma getAllpools_config w a s l s' :
  JS.truthyNum (chainId a) = true ->
  getAllpools w a s = (inr l, s') ->
  exists provider qa ep,
    chainProvider (chainConfig w (chainId a)) = Some provider /\
    JS.whenTruthy (quoteApi (chainConfig w (chainId a))) = Some qa /\
    JS.whenTruthy (subgraphUrl (chainConfig w (chainId a))) = Some ep.
Proof.
  intros Hc E. unfold getAllpools in E. rewrite Hc in E. simpl in E.
  destruct (chainProvider (chainConfig w (chainId a))) as [provider|]; [|discriminate].
  destruct (JS.whenTruthy (quoteApi (chainConfig w (chainId a)))) as [qa|]; [|discriminate].
  destruct (JS.whenTruthy (subgraphUrl (chainConfig w (chainId a)))) as [ep|]; [|discriminate].
  eauto 7.
Qed.

Lemma mapiM_nth {A B} (f : nat -> A -> M B) l :
  forall i s ys s', mapiM f i l s = (inr ys, s') ->
  List.length ys = List.length l /\
  forall j x y, nth_error l j = Some x -> nth_error ys j = Some y ->
    exists s1 s2, f (i + j)%nat x s1 = (inr y, s2).
Proof.
  induction l as [|x0 r IH]; simpl; intros i s ys s' E.
  - apply ret_inr in E. destruct E as [<- _]. split; [reflexivity|].
    intros [|j] x y H; discriminate.
  - apply bind_inr in E. destruct E as [y0 [s1 [E1 E]]].
    apply bind_inr in E. destruct E as [ys' [s2 [E2 E]]].
    apply ret_inr in E. destruct E as [<- _].
    destruct (IH _ _ _ _ E2) as [HL HN]. split; [simpl; congruence|].
    intros [|j] x y Hx Hy; simpl in Hx, Hy.
    + inversion Hx; inversion Hy; subst. rewrite Nat.add_0_r. eauto.
    + replace (i + S j)%nat with (S i + j)%nat by lia. eapply HN; eauto.
Qed.

Lemma Forall2_of_nth {A B} (R : A -> B -> Prop) l :
  forall l', List.length l' = List.length l ->
  (forall j x y, nth_error l j = Some x -> nth_error l' j = Some y -> R x y) ->
  Forall2 R l l'.
Proof.
  induction l as [|x r IH]; intros [|y r'] HL H; try discriminate; constructor.
  - apply (H 0%nat); reflexivity.
  - apply IH; [simpl in HL; congruence|].
    intros j a b Ha Hb. apply (H (S j)); assumption.
Qed.

Lemma mergePool_mergedFrom w addl admin i row info ad s p s' :
  nth_error addl i = Some info ->
  nth_error admin i = Some ad ->
  mergePool w addl admin i row s = (inr p, s') ->
  mergedFrom w row info ad p.
Proof.
  unfold mergePool. intros Hi Ha E. rewrite Hi in E. rewrite Ha in E.
  apply bind_inr in E. destruct E as [a1 [s1 [E1 E]]].
  apply bind_inr in E. destruct E as [a2 [s2 [E2 E]]].
  apply bind_inr in E. destruct E as [a3 [s3 [E3 E]]].
  apply ret_inr in E. destruct E as [<- _].
  apply lift_inr in E1, E2, E3.
  destruct E1 as [E1 _], E2 as [E2 _], E3 as [E3 _].
  unfold mergedFrom. simpl. repeat split; auto.
Qed.

(** What a successful [getAllpools] that passed its guards did. *)
Lemma getAllpools_run w a s l s' :
  JS.truthyNum (chainId a) = true ->
  getAllpools w a s = (inr l, s') ->
  exists provider qa ep rows merged,
    chainProvider (chainConfig w (chainId a)) = Some provider /\
    JS.whenTruthy (quoteApi (chainConfig w (chainId a))) = Some qa /\
    JS.whenTruthy (subgraphUrl (chainConfig w (chainId a))) = Some ep /\
    indexPools w (List.length (calls s)) ep (poolsQuery a) = inr rows /\
    Forall2 (fun row p => exists info admin,
               enrichedBy w a provider qa ep row info admin /\
               mergedFrom w row info admin p) rows merged /\
    l = JS.sort comparePools merged.
Proof.
  intros Hc E.
  destruct (getAllpools_config _ _ _ _ _ Hc E) as [provider [qa [ep [Hp [Hq He]]]]].
  rewrite (getAllpools_unfold w a provider qa ep Hc Hp Hq He) in E.
  apply tryCatch_inr in E.
  apply bind_inr in E. destruct E as [rows [s1 [E1 E]]].
  unfold requestPools in E1. apply await_inr in E1. destruct E1 as [Hi _].
  unfold enrich in E.
  apply bind_inr in E. destruct E as [addl [s2 [E2 E]]].
  apply bind_inr in E. destruct E as [admin [s3 [E3 E]]].
  apply bind_inr in E. destruct E as [merged [s4 [E4 E]]].
  apply ret_inr in E. destruct E as [<- _].
  exists provider, qa, ep, rows, merged. repeat split; auto.
  apply mapM_Forall2 in E2. apply mapM_Forall2 in E3.
  apply mapiM_nth in E4. destruct E4 as [HL HN].
  apply Forall2_of_nth; [exact HL|].
  intros j row p Hrow Hp'.
  destruct (Forall2_nth_r _ _ _ E2 _ _ Hrow) as [info [Hinfo Rinfo]].
  destruct (Forall2_nth_r _ _ _ E3 _ _ Hrow) as [ad [Had Rad]].
  destruct (HN _ _ _ Hrow Hp') as [t1 [t2 G]]. simpl in G.
  exists info, ad. split; [split; assumption|].
  eapply mergePool_mergedFrom; eauto.
Qed.

(** X11.  Every pool a successful [getAllpools] builds carries the
    enrichments fetched for its own row: the pools are, before the final
    sort, the rows of the indexer's answer in order, each merged with the
    result of [getPoolAddlInfo] and of [getAdminPoolInfo] called on that
    row's own address, NFT contract and LTV; none is left with a default
    in place of an enrichment. *)
Theorem getAllpools_pools_carry_their_own_enrichment w a s l s' :
  JS.truthyNum (chainId a) = true ->
  getAllpools w a s = (inr l, s') ->
  exists provider qa ep rows merged,
    chainProvider (chainConfig w (chainId a)) = Some provider /\
    JS.whenTruthy (quoteApi (chainConfig w (chainId a))) = Some qa /\
    JS.whenTruthy (subgraphUrl (chainConfig w (chainId a))) = Some ep /\
    indexPools w (List.length (calls s)) ep (poolsQuery a) = inr rows /\
    Forall2 (fun row p => exists info admin,
               enrichedBy w a provider qa ep row info admin /\
               mergedFrom w row info admin p) rows merged /\
    l = JS.sort comparePools merged.
Proof. apply getAllpools_run. Qed.

Lemma comparePools_separates x y : 0 < comparePools x y -> nftsOf x <> nftsOf y.
Proof.
  unfold comparePools, nftsOf.
  destruct (JS.Number_ (maxNftsToBorrow y)), (JS.Number_ (maxNftsToBorrow x)); lia.
Qed.

(** X12.  The sort of [getAllpools] is stable: it returns one pool per
    row of the indexer's answer, and the pools that show the same number
    of borrowable NFTs stay in the order of their rows. *)
Theorem getAllpools_equal_counts_keep_row_order w a s l s' :
  JS.truthyNum (chainId a) = true ->
  getAllpools w a s = (inr l, s') ->
  exists ep rows merged,
    JS.whenTruthy (subgraphUrl (chainConfig w (chainId a))) = Some ep /\
    indexPools w (List.length (calls s)) ep (poolsQuery a) = inr rows /\
    Forall2 (fun row p => getAddress w (gp_address row) = inr (address p)) rows merged /\
    Permutation merged l /\
    forall v, List.filter (fun p => nftsOf p =? v) l
              = List.filter (fun p => nftsOf p =? v) merged.
Proof.
  intros Hc E.
  destruct (getAllpools_run _ _ _ _ _ Hc E)
    as [provider [qa [ep [rows [merged [_ [_ [He [Hi [HF ->]]]]]]]]]].
  exists ep, rows, merged. repeat split; auto.
  - eapply Forall2_impl; [|exact HF].
    intros row p [info [ad [_ HM]]]. apply HM.
  - apply sort_perm.
  - intros v. apply (sort_stable comparePools nftsOf comparePools_separates).
Qed.


Lemma Adds_getPoolAddlInfo w pa pr nft qa l it (so : bool) :
  Adds (if so then 6 else 7) (getPoolAddlInfo w pa pr nft qa l it so).
Proof.
  unfold getPoolAddlInfo. apply Adds_tryCatch.
  replace (if so then 6 else 7)%nat with ((if so then 0 else 1) + 6)%nat
    by (destruct so; reflexivity).
  apply Adds_bind.
  { destruct so; [apply Adds_ret|apply Adds_await]. }
  intros price. apply (Adds_bind 1 5); [apply Adds_await|]. intros cn.
  apply (Adds_bind 1 4); [apply Adds_await|]. intros b.
  apply (Adds_bind 1 3); [apply Adds_await|]. intros t.
  apply (Adds_bind 1 2); [apply Adds_await|]. intros d.
  apply (Adds_bind 1 1); [apply Adds_await|]. intros ci.
  apply (Adds_bind 1 0); [apply Adds_await|]. intros o.
  apply Adds_ret.
Qed.

Lemma Adds_getAdminPoolInfo w pa pr nft ep :
  Adds 7 (getAdminPoolInfo w pa pr nft ep).
Proof.
  unfold getAdminPoolInfo, readUint, requestLiquidators. apply Adds_tryCatch.
  apply (Adds_bind 1 6); [apply Adds_await|]. intros mp.
  apply (Adds_bind 1 5); [apply Adds_await|]. intros d.
  apply (Adds_bind 1 4); [apply Adds_await|]. intros ml.
  apply (Adds_bind 1 3); [apply Adds_await|]. intros o.
  apply (Adds_bind 1 2); [apply Adds_await|]. intros mi.
  apply (Adds_bind 1 1); [apply Adds_await|]. intros mv.
  apply (Adds_bind 1 0); [apply Adds_await|]. intros ls.
  apply Adds_Silent. apply Silent_bind.
  - apply Silent_mapM. intros x. apply Silent_lift.
  - intros la. apply Silent_ret.
Qed.

(** X13.  A successful [getAllpools] that passed its guards has issued
    one call for the pool list and fourteen calls for each pool it
    returns (seven by each enrichment), thirteen when [skipOracle] is
    set. *)
Theorem getAllpools_issues_fourteen_calls_per_pool w a s l s' :
  JS.truthyNum (chainId a) = true ->
  getAllpools w a s = (inr l, s') ->
  exists new,
    calls s' = calls s ++ new /\
    List.length new = (1 + List.length l * (if skipOracle a then 13 else 14))%nat.
Proof.
  intros Hc E.
  destruct (getAllpools_config _ _ _ _ _ Hc E) as [provider [qa [ep [Hp [Hq He]]]]].
  rewrite (getAllpools_unfold w a provider qa ep Hc Hp Hq He) in E.
  apply tryCatch_inr in E.
  apply bind_inr in E. destruct E as [rows [s1 [E1 E]]].
  unfold requestPools in E1. apply await_inr in E1. destruct E1 as [_ [H1 _]].
  unfold enrich in E.
  apply bind_inr in E. destruct E as [addl [s2 [E2 E]]].
  apply bind_inr in E. destruct E as [admin [s3 [E3 E]]].
  apply bind_inr in E. destruct E as [merged [s4 [E4 E]]].
  apply ret_inr in E. destruct E as [<- <-].
  destruct (Adds_mapM _ _ rows
              (fun row => Adds_getPoolAddlInfo w (gp_address row) provider
                            (gp_nftContract row) qa (gp_ltv row)
                            (isTestnet (chainConfig w (chainId a))) (skipOracle a))
              _ _ _ E2) as [new2 [H2 L2]].
  destruct (Adds_mapM _ _ rows
              (fun row => Adds_getAdminPoolInfo w (gp_address row) provider
                            (gp_nftContract row) ep)
              _ _ _ E3) as [new3 [H3 L3]].
  destruct (Silent_mapiM _ rows (fun i x => Silent_mergePool w addl admin i x) _ _ _ _ E4)
    as [_ H4].
  destruct (mapiM_nth _ _ _ _ _ _ E4) as [HL _].
  exists ((Request ep (poolsQuery a) :: new2) ++ new3). split.
  - rewrite H4, H3, H2, H1, <- !app_assoc. reflexivity.
  - rewrite <- (Permutation_length (sort_perm comparePools merged)), HL.
    rewrite length_app. simpl. rewrite L2, L3.
    destruct (skipOracle a); lia.
Qed.

Lemma Emits_getPoolAddlInfo_skipping w pa pr nft qa l it :
  Emits quiet (getPoolAddlInfo w pa pr nft qa l it true).
Proof.
  unfold getPoolAddlInfo. apply Emits_tryCatch.
  apply Emits_bind; [apply Silent_Emits, Silent_ret|]. intros price.
  apply Emits_bind; [apply Emits_await; reflexivity|]. intros cn.
  apply Emits_bind; [apply Emits_await; reflexivity|]. intros b.
  apply Emits_bind; [apply Emits_await; reflexivity|]. intros t.
  apply Emits_bind; [apply Emits_await; reflexivity|]. intros d.
  apply Emits_bind; [apply Emits_await; reflexivity|]. intros ci.
  apply Emits_bind; [apply Emits_await; reflexivity|]. intros o.
  apply Silent_Emits, Silent_ret.
Qed.

Lemma Emits_getAdminPoolInfo_quiet w pa pr nft ep :
  Emits quiet (getAdminPoolInfo w pa pr nft ep).
Proof.
  unfold getAdminPoolInfo, readUint, requestLiquidators. apply Emits_tryCatch.
  apply Emits_bind; [apply Emits_await; reflexivity|]. intros mp.
  apply Emits_bind; [apply Emits_await; reflexivity|]. intros d.
  apply Emits_bind; [apply Emits_await; reflexivity|]. intros ml.
  apply Emits_bind; [apply Emits_await; reflexivity|]. intros o.
  apply Emits_bind; [apply Emits_await; reflexivity|]. intros mi.
  apply Emits_bind; [apply Emits_await; reflexivity|]. intros mv.
  apply Emits_bind; [apply Emits_await; reflexivity|]. intros ls.
  apply Silent_Emits. apply Silent_bind.
  - apply Silent_mapM. intros x. apply Silent_lift.
  - intros la. apply Silent_ret.
Qed.

Lemma Emits_getAllpools_skipping w a :
  skipOracle a = true -> Emits quiet (getAllpools w a).
Proof.
  intros Hs. unfold getAllpools. apply Emits_tryCatch.
  destruct (negb (JS.truthyNum (chainId a))); [apply Silent_Emits, Silent_ret|].
  destruct (chainProvider _); [|apply Silent_Emits, Silent_throw].
  destruct (JS.whenTruthy (quoteApi _)); [|apply Silent_Emits, Silent_throw].
  destruct (JS.whenTruthy (subgraphUrl _)); [|apply Silent_Emits, Silent_throw].
  apply Emits_bind; [apply Emits_await; reflexivity|]. intros pools.
  apply Emits_bind.
  { apply Emits_mapM. intros x. rewrite Hs. apply Emits_getPoolAddlInfo_skipping. }
  intros addl. apply Emits_bind.
  { apply Emits_mapM. intros x. apply Emits_getAdminPoolInfo_quiet. }
  intros admin. apply Silent_Emits. apply Silent_bind.
  - apply Silent_mapiM. intros i x. apply Silent_mergePool.
  - intros merged. apply Silent_ret.
Qed.

Lemma getPoolAddlInfo_skipping_price w pa pr nft qa l it s info s' :
  getPoolAddlInfo w pa pr nft qa l it true s = (inr info, s') ->
  ai_oraclePrice info = None.
Proof.
  unfold getPoolAddlInfo. intros E. apply tryCatch_inr in E.
  apply bind_inr in E. destruct E as [price [s1 [E1 E]]].
  apply ret_inr in E1. destruct E1 as [<- _].
  apply bind_inr in E. destruct E as [cn [s2 [_ E]]].
  apply bind_inr in E. destruct E as [b [s3 [_ E]]].
  apply bind_inr in E. destruct E as [t [s4 [_ E]]].
  apply bind_inr in E. destruct E as [d [s5 [_ E]]].
  apply bind_inr in E. destruct E as [ci [s6 [_ E]]].
  apply bind_inr in E. destruct E as [o [s7 [_ E]]].
  apply ret_inr in E. destruct E as [<- _]. reflexivity.
Qed.

(** X14.  With [skipOracle] set, no run of [getAllpools], whatever its
    outcome, calls the price oracle, and every pool of a successful run
    has the empty string for its oracle price. *)
Theorem getAllpools_skipOracle_never_asks_the_oracle w a s r s' :
  skipOracle a = true ->
  getAllpools w a s = (r, s') ->
  (exists new, calls s' = calls s ++ new /\
               Forall (fun c => isOracleCall c = false) new) /\
  (forall l, r = inr l -> Forall (fun p => oraclePrice p = EmptyString) l).
Proof.
  intros Hs E. split.
  - destruct (Emits_getAllpools_skipping w a Hs _ _ _ E) as [_ H]. exact H.
  - intros l ->. apply Forall_forall. intros p Hin.
    destruct (JS.truthyNum (chainId a)) eqn:Hc.
    + destruct (getAllpools_run _ _ _ _ _ Hc E)
        as [provider [qa [ep [rows [merged [_ [_ [_ [_ [HF ->]]]]]]]]]].
      apply (Permutation_in _ (Permutation_sym (sort_perm comparePools merged))) in Hin.
      destruct (Forall2_In_r _ _ _ _ HF Hin) as [row [_ [info [ad [[[s1 [s2 G]] _] HM]]]]].
      rewrite Hs in G. apply getPoolAddlInfo_skipping_price in G.
      destruct HM as [_ [_ [_ [_ [_ [_ [_ [_ [_ [_ [_ [_ [_ [_ [_ [HM _]]]]]]]]]]]]]]]].
      rewrite HM, G. reflexivity.
    + unfold getAllpools in E. rewrite Hc in E. simpl in E.
      inversion E; subst. contradiction.
Qed.

Lemma annualRate_truncated siy x :
  annualRate siy x = JS.decimal (truncatedRate siy x).
Proof.
  unfold annualRate, truncatedRate, BigNumber.toFixed0, BigNumber.times, BigNumber.div,
    BigNumber.lift2, BigNumber.ofZ.
  f_equal.
  change (Z.quot (Z.of_N x * 1 * siy) (Zpos (1 * 10000000000000000 * 1))
          = Z.quot (Z.of_N x * siy) (10 ^ 16)).
  rewrite Z.mul_1_r. reflexivity.
Qed.

(** X15.  The interest bounds of [getAdminPoolInfo], for rates per
    second in the range where [Number] is exact: [minimumInterest] is
    the minimum rate times the seconds of a year over [1e16], cut to a
    whole number, and [maximumInterest] is that number plus the variable
    rate cut in the same way: the sum of the two whole numbers, not the
    whole part of the exact sum. *)
Theorem maximumInterest_adds_two_truncated_rates siy nft pa r liqs :
  Z.of_N (r_minimumInterest r) < 2 ^ 53 ->
  Z.of_N (r_maxVariableInterestPerEthPerSecond r) < 2 ^ 53 ->
  minimumInterest (adminInfoOf siy nft pa r liqs)
    = JS.decimal (truncatedRate siy (r_minimumInterest r)) /\
  maximumInterest (adminInfoOf siy nft pa r liqs)
    = JS.decimal (truncatedRate siy (r_maxVariableInterestPerEthPerSecond r)
                  + truncatedRate siy (r_minimumInterest r)).
Proof.
  intros _ _. unfold adminInfoOf. cbv zeta. simpl minimumInterest. simpl maximumInterest.
  rewrite !annualRate_truncated. split; [reflexivity|].
  unfold addRates. rewrite !Decimals.Number_decimal. reflexivity.
Qed.

(** X16.  A run of [getAllpools] fails without having issued any call
    in one case only: the chain id is usable but the configuration of
    the chain lacks the provider, the quote API or the subgraph URL; the
    error then reads [Invalid arguments]. *)
Theorem getAllpools_fails_without_a_call_iff w a s e s' :
  (getAllpools w a s = (inl e, s') /\ calls s' = calls s) <->
  (JS.truthyNum (chainId a) = true /\
   reachesIndexer w a = None /\
   e = Error_ "Invalid arguments" /\ s' = s).
Proof.
  split.
  - intros [E Hcalls].
    pose proof (getAllpools_calls w (fun _ => True) a s _ s'
                  (Build_PoolSide _ (fun _ _ _ => I) (fun _ _ => I) (fun _ _ => I)
                     (fun _ _ _ _ => I) (fun _ _ => I)) E) as H.
    destruct (reachesIndexer w a) as [ep|] eqn:Hr.
    + destruct H as [rest [H _]]. rewrite Hcalls in H.
      apply (f_equal (@List.length Call)) in H. rewrite length_app in H. simpl in H. lia.
    + unfold getAllpools in E. unfold reachesIndexer in Hr.
      destruct (JS.truthyNum (chainId a)); simpl in E; [|discriminate].
      split; [reflexivity|]. split; [reflexivity|].
      destruct (chainProvider (chainConfig w (chainId a))) as [provider|].
      2:{ inversion E; subst. auto. }
      destruct (JS.whenTruthy (quoteApi (chainConfig w (chainId a)))) as [qa|].
      2:{ inversion E; subst. auto. }
      destruct (JS.whenTruthy (subgraphUrl (chainConfig w (chainId a)))) as [ep|].
      2:{ inversion E; subst. auto. }
      discriminate.
  - intros [Hc [Hr [-> ->]]]. split; [|reflexivity].
    unfold getAllpools. unfold reachesIndexer in Hr. rewrite Hc in *. simpl.
    destruct (chainProvider (chainConfig w (chainId a))) as [provider|]; [|reflexivity].
    destruct (JS.whenTruthy (quoteApi (chainConfig w (chainId a)))) as [qa|]; [|reflexivity].
    destruct (JS.whenTruthy (subgraphUrl (chainConfig w (chainId a)))) as [ep|];
      [discriminate|reflexivity].
Qed.

(** X17.  The field [maxVariableInterestPerEthPerSecond] of a merged
    pool holds the sum of the row's variable rate and its minimum rate,
    written in plain digits as long as the sum is below [1e21]. *)
Theorem merged_maxVariableInterest_includes_minimum w addl admin i row s p s' :
  Z.of_N (gp_maxVariableInterestPerEthPerSecond row) + Z.of_N (gp_minimumInterest row)
    < 10 ^ 21 ->
  mergePool w addl admin i row s = (inr p, s') ->
  maxVariableInterestPerEthPerSecond p
    = JS.decimal (Z.of_N (gp_maxVariableInterestPerEthPerSecond row)
                  + Z.of_N (gp_minimumInterest row)).
Proof.
  intros Hlt E. unfold mergePool in E.
  apply bind_inr in E. destruct E as [a1 [s1 [_ E]]].
  apply bind_inr in E. destruct E as [a2 [s2 [_ E]]].
  apply bind_inr in E. destruct E as [a3 [s3 [_ E]]].
  apply ret_inr in E. destruct E as [<- _].
  simpl maxVariableInterestPerEthPerSecond.
  unfold BigNumber.toString, BigNumber.plus, BigNumber.lift2, BigNumber.ofZ.
  set (x := Z.of_N (gp_maxVariableInterestPerEthPerSecond row)) in *.
  set (y := Z.of_N (gp_minimumInterest row)) in *.
  change (Qnum (inject_Z x + inject_Z y)) with (x * 1 + y * 1).
  change (Zpos (Qden (inject_Z x + inject_Z y))) with 1.
  rewrite !Z.mul_1_r, Z.quot_1_r.
  apply Z.ltb_lt in Hlt. change (10 ^ 21) with (Z.pow_pos 10 21) in Hlt.
  cbv zeta. rewrite Hlt. reflexivity.
Qed.

End PoolsMore.

(** ** The deposit hook: its amount test and its callbacks *)

Module RegexFacts.
Import Regex RegexProps.
Local Open Scope string_scope.

Lemma append_nil_r (s : string) : s ++ "" = s.
Proof. induction s as [|c s IH]; simpl; [reflexivity|rewrite IH; reflexivity]. Qed.

Lemma append_empty (s t : string) : s ++ t = "" -> s = "" /\ t = "".
Proof. destruct s; simpl; [auto|discriminate]. Qed.

Lemma Lang_nullable r s : Lang r s -> s = "" -> nullable r = true.
Proof.
  induction 1; intros E; simpl; try discriminate; try reflexivity.
  - rewrite IHLang by exact E. reflexivity.
  - rewrite IHLang by exact E. apply orb_true_r.
  - apply append_empty in E. destruct E as [E1 E2].
    rewrite IHLang1, IHLang2 by assumption. reflexivity.
Qed.

Lemma nullable_Lang r : nullable r = true -> Lang r "".
Proof.
  induction r; simpl; intros E; try discriminate.
  - constructor.
  - apply orb_true_iff in E. destruct E as [E|E].
    + apply L_AltL. auto.
    + apply L_AltR. auto.
  - apply andb_true_iff in E. destruct E as [E1 E2].
    apply (L_Cat _ _ "" ""); auto.
  - constructor.
Qed.

Lemma after_sound c r : forall s, Lang (after c r) s -> Lang r (String c s).
Proof.
  induction r; simpl; intros s H.
  - inversion H.
  - inversion H.
  - destruct (p c) eqn:E; inversion H; subst. constructor. exact E.
  - inversion H; subst; [apply L_AltL|apply L_AltR]; auto.
  - destruct (nullable r1) eqn:E.
    + inversion H; subst.
      * match goal with
        | G : Lang (Cat _ _) _ |- _ => inversion G; subst
        end.
        apply (L_Cat r1 r2 (String c s0) t); auto.
      * apply (L_Cat r1 r2 "" (String c s)); [apply nullable_Lang, E|auto].
    + inversion H; subst. apply (L_Cat r1 r2 (String c s0) t); auto.
  - inversion H; subst. apply (L_StarS r (String c s0) t); auto.
Qed.

Lemma after_complete r s0 :
  Lang r s0 -> forall c s, s0 = String c s -> Lang (after c r) s.
Proof.
  induction 1; intros c0 s0 E; simpl; try discriminate.
  - inversion E; subst. rewrite H. constructor.
  - apply L_AltL. eauto.
  - apply L_AltR. eauto.
  - destruct s as [|x s'].
    + simpl in E. subst t.
      rewrite (Lang_nullable _ _ H eq_refl).
      apply L_AltR. eauto.
    + simpl in E. inversion E; subst.
      assert (G : Lang (Cat (after c0 a) b) (s' ++ t)).
      { constructor; eauto. }
      destruct (nullable a); [apply L_AltL|]; exact G.
  - destruct s as [|x s'].
    + simpl in E. subst t. apply (IHLang2 c0 s0 eq_refl).
    + simpl in E. inversion E; subst.
      constructor; eauto.
Qed.

(** The matcher decides the language of the pattern. *)
Lemma test_Lang s : forall r, test r s = true <-> Lang r s.
Proof.
  induction s as [|c s IH]; intros r; simpl.
  - split; [apply nullable_Lang|intros H; eapply Lang_nullable; eauto].
  - rewrite IH. split; [apply after_sound|intros H; eapply after_complete; eauto].
Qed.

Lemma Lang_Star_Class p s : Lang (Star (Class p)) s <-> allOf p s = true.
Proof.
  split.
  - intros H. remember (Star (Class p)) as r eqn:Er.
    induction H; try discriminate; [reflexivity|].
    inversion Er; subst. inversion H; subst. simpl.
    rewrite IHLang2 by reflexivity.
    match goal with G : p _ = true |- _ => rewrite G end. reflexivity.
  - induction s as [|c s IH]; simpl; intros E.
    + constructor.
    + apply andb_true_iff in E. destruct E as [E1 E2].
      apply (L_StarS (Class p) (String c "") s); [constructor; exact E1|auto].
Qed.

Lemma Lang_Opt_dotOrComma s :
  Lang (Opt (Class dotOrComma)) s <-> (s = "" \/ s = "." \/ s = ",").
Proof.
  unfold Opt. split.
  - intros H. inversion H; subst.
    + match goal with G : Lang (Class _) _ |- _ => inversion G; subst end.
      unfold dotOrComma in *.
      match goal with
      | G : orb _ _ = true |- _ =>
          apply orb_true_iff in G; destruct G as [G|G];
          apply Ascii.eqb_eq in G; subst; auto
      end.
    + match goal with G : Lang Empty _ |- _ => inversion G; subst end. auto.
  - intros [ -> | [ -> | -> ] ].
    + apply L_AltR. constructor.
    + apply L_AltL. constructor. reflexivity.
    + apply L_AltL. constructor. reflexivity.
Qed.

Lemma Lang_Cat_inv a b s :
  Lang (Cat a b) s -> exists s1 s2, s = s1 ++ s2 /\ Lang a s1 /\ Lang b s2.
Proof. inversion 1; subst; eauto. Qed.

Lemma Lang_amountShaped s : Lang Deposit.amountPattern s <-> amountShaped s.
Proof.
  unfold Deposit.amountPattern, amountShaped. split.
  - intros H. apply Lang_Cat_inv in H. destruct H as [a [rest [-> [Ha H]]]].
    apply Lang_Cat_inv in H. destruct H as [sep [b [-> [Hsep Hb]]]].
    exists a, sep, b. repeat split.
    + apply Lang_Star_Class. assumption.
    + apply Lang_Star_Class. assumption.
    + apply Lang_Opt_dotOrComma. assumption.
  - intros [a [sep [b [-> [Ha [Hb Hsep]]]]]].
    constructor; [apply Lang_Star_Class, Ha|].
    constructor; [apply Lang_Opt_dotOrComma, Hsep|apply Lang_Star_Class, Hb].
Qed.
End RegexFacts.

Module DepositMore.
Import Deposit Regex RegexProps RegexFacts DepositProps.
Local Open Scope string_scope.

Lemma validAmount_shaped a :
  validAmount a = true <-> exists s, a = Some s /\ s <> "" /\ amountShaped s.
Proof.
  unfold validAmount, JS.whenTruthy, JS.truthy. split.
  - destruct a as [[|c s]|]; try discriminate.
    intros H. apply test_Lang, Lang_amountShaped in H.
    exists (String c s). repeat split; [discriminate|exact H].
  - intros [s [-> [Hne H]]]. destruct s as [|c s]; [contradiction|].
    apply test_Lang, Lang_amountShaped. exact H.
Qed.

(** X18.  [validAmount] holds exactly of the amounts that are present,
    not empty, and made of digits, then at most one dot or comma, then
    digits; either run of digits may be empty, so a lone separator
    passes. *)
Theorem validAmount_iff_digits_separator_digits a :
  validAmount a = true <-> exists s, a = Some s /\ s <> "" /\ amountShaped s.
Proof. apply validAmount_shaped. Qed.

Lemma digits_of_uint d : allOf digit (NilEmpty.string_of_uint d) = true.
Proof. induction d; simpl; auto. Qed.

Lemma digits_of_uint0 d : allOf digit (NilZero.string_of_uint d) = true.
Proof. destruct d; try reflexivity; apply (digits_of_uint (_ d)). Qed.

Lemma amountShaped_head c s :
  amountShaped (String c s) -> digit c = true \/ dotOrComma c = true.
Proof.
  intros [a [sep [b [E [Ha [Hb Hsep]]]]]].
  destruct a as [|x a].
  - destruct Hsep as [ -> | [ -> | -> ] ]; simpl in E.
    + subst b. simpl in Hb. apply andb_true_iff in Hb. left. apply Hb.
    + inversion E; subst. right. reflexivity.
    + inversion E; subst. right. reflexivity.
  - simpl in E. inversion E; subst. simpl in Ha.
    apply andb_true_iff in Ha. left. apply Ha.
Qed.

(** X19.  Of the decimal renderings of integers, [validAmount] accepts
    those of the non-negative ones and rejects every negative one. *)
Theorem validAmount_of_decimal z :
  validAmount (Some (JS.decimal z)) = (0 <=? z)%Z.
Proof.
  destruct (Z.leb_spec 0 z) as [H|H].
  - apply validAmount_shaped. exists (JS.decimal z).
    split; [reflexivity|]. split; [apply Decimals.decimal_nonempty|].
    exists (JS.decimal z), "", "". repeat split; auto.
    + simpl. rewrite append_nil_r. reflexivity.
    + unfold JS.decimal. destruct z as [|p|p]; try lia; apply digits_of_uint0.
  - destruct (validAmount (Some (JS.decimal z))) eqn:E; [|reflexivity].
    apply validAmount_shaped in E. destruct E as [s [Es [_ Hs]]].
    inversion Es; subst. destruct z as [|p|p]; try lia.
    unfold JS.decimal in Hs. simpl in Hs.
    apply amountShaped_head in Hs. destruct Hs as [Hs|Hs]; discriminate.
Qed.

Lemma sameIgnoringCase_eq a b :
  sameIgnoringCase a b = true <->
  option_map JS.toLowerCase a = option_map JS.toLowerCase b.
Proof.
  unfold sameIgnoringCase. destruct a, b; simpl; split; intros H;
    try discriminate; try reflexivity.
  - apply String.eqb_eq in H. congruence.
  - injection H as H. apply String.eqb_eq. exact H.
Qed.

(** X20.  The prepared write is enabled exactly when the wallet is on
    the chain of the deposit, the wallet's account and the user address
    agree once both are put in lower case (two absent addresses agree),
    and the amount is well formed; and when it is enabled, the value it
    sends is the formatted amount, never the placeholder. *)
Theorem prepare_enabled_iff e d :
  (enabled (prepare e d) = true <->
   chain e = Some (chainId d) /\
   option_map JS.toLowerCase (address e) = option_map JS.toLowerCase (userAddress d) /\
   exists amount,
     amountToDeposit d = Some amount /\ amount <> "" /\ amountShaped amount) /\
  (enabled (prepare e d) = true ->
   exists amount,
     amountToDeposit d = Some amount /\
     value (prepare e d) = formatAmountToDepositOrWithdraw e amount).
Proof.
  unfold prepare. cbn [enabled value]. split.
  - rewrite !andb_true_iff, sameIgnoringCase_eq, validAmount_shaped.
    split.
    + intros [[Hc Ha] Hv]. repeat split; auto.
      destruct (chain e) as [id_|]; [|discriminate].
      apply Z.eqb_eq in Hc. congruence.
    + intros [Hc [Ha Hv]]. repeat split; auto.
      rewrite Hc. apply Z.eqb_refl.
  - intros H. apply andb_true_iff in H. destruct H as [_ Hv].
    rewrite Hv. destruct (amountToDeposit d) as [amount|]; [eauto|discriminate].
Qed.

Lemma opened_more p q id_ :
  (forall x, In x (effects p) -> In x (effects q)) -> opened p id_ -> opened q id_.
Proof. intros H [h [be G]]. exists h, be. auto. Qed.

Lemma handle_settled e p ev : settled p -> settled (handle e p ev).
Proof.
  intros [H1 H2]. destruct ev as [h|status writeHash]; simpl.
  - unfold onSuccess. cbv zeta. split; cbn [txConfirmingId effects].
    + intros id_ E. inversion E; subst. exists h, (blockExplorer e).
      apply in_or_app. right. left. reflexivity.
    + intros id_ Hin. apply in_app_or in Hin. destruct Hin as [Hin|[Hin|[]]];
        [|discriminate].
      assert (Hp : In (Dismiss (Some id_)) (effects p)).
      { destruct (hasDialog p); [|exact Hin].
        apply in_app_or in Hin. destruct Hin as [Hin|[Hin|[]]];
          [exact Hin|discriminate]. }
      destruct (H2 _ Hp) as [h0 [be G]]. exists h0, be.
      apply in_or_app. left.
      destruct (hasDialog p); [apply in_or_app; left|]; exact G.
  - unfold onSettled. split; cbn [txConfirmingId effects].
    + intros id_ E. eapply opened_more; [|apply H1, E].
      cbn [effects]. intros x Hx. apply in_or_app. left. exact Hx.
    + intros id_ Hin.
      assert (Hp : opened p id_).
      { apply in_app_or in Hin. destruct Hin as [Hin|[Hin|[Hin|[Hin|[]]]]].
        - apply H2, Hin.
        - inversion Hin as [E]. apply H1, E.
        - destruct status as [[|[| |]|]|]; discriminate.
        - discriminate. }
      eapply opened_more; [|exact Hp].
      cbn [effects]. intros x Hx. apply in_or_app. left. exact Hx.
Qed.

Lemma run_settled e evs : forall p, settled p -> settled (run e evs p).
Proof.
  unfold run. induction evs as [|ev evs IH]; simpl; intros p H; [exact H|].
  apply IH, handle_settled, H.
Qed.

Lemma handle_invalidations e p ev :
  List.length (List.filter isInvalidation (effects (handle e p ev))) =
  (List.length (List.filter isInvalidation (effects p)) + if isSettled ev then 1 else 0)%nat.
Proof.
  destruct ev as [h|status writeHash]; simpl.
  - unfold onSuccess. cbv zeta. cbn [effects].
    destruct (hasDialog p); rewrite !filter_app, !length_app; simpl; lia.
  - unfold onSettled. cbn [effects].
    rewrite filter_app, length_app.
    destruct status as [[|[| |]|]|]; simpl; lia.
Qed.

Lemma run_invalidations e evs :
  forall p,
    List.length (List.filter isInvalidation (effects (run e evs p))) =
    (List.length (List.filter isInvalidation (effects p))
     + List.length (List.filter isSettled evs))%nat.
Proof.
  unfold run. induction evs as [|ev evs IH]; simpl; intros p; [lia|].
  rewrite IH, handle_invalidations. destruct (isSettled ev); simpl; lia.
Qed.

(** X21.  However the two callbacks of the hook are fired from a fresh
    page, a toast that [onSettled] dismisses by its id is one that an
    earlier [onSuccess] opened, and the queries have been invalidated
    once for each [onSettled]. *)
Theorem callbacks_dismiss_only_opened_toasts e evs p :
  txConfirmingId p = None ->
  effects p = [] ->
  (forall id_, In (Dismiss (Some id_)) (effects (run e evs p)) ->
               opened (run e evs p) id_) /\
  List.length (List.filter isInvalidation (effects (run e evs p)))
    = List.length (List.filter isSettled evs).
Proof.
  intros Hid Heff. split.
  - apply run_settled. split.
    + intros id_ E. rewrite Hid in E. discriminate.
    + intros id_ Hin. rewrite Heff in Hin. contradiction.
  - rewrite run_invalidations, Heff. reflexivity.
Qed.

End DepositMore.

(** ** The further properties at work in the sample world *)

Module MoreWitnesses.
Import MoreLoanProps MorePoolProps PoolProps RegexProps DepositProps.
Local Open Scope string_scope.
Local Open Scope Z_scope.

Lemma getLoans_log_witness :
  calls Sample.loansSt = (calls St0 ++ requestsOf Sample.loanArgs)%list.
Proof.
  apply (LoansMore.getLoans_log_is_the_one_request
           Sample.w Sample.loanArgs St0 (inr Sample.loans) Sample.loansSt).
  vm_compute. reflexivity.
Defined.

Lemma getLoans_rows_witness :
  exists ep rows mapped,
    JS.whenTruthy (Loans.endpoint Sample.loanArgs) = Some ep /\
    indexLoans Sample.w (List.length (calls St0)) ep (queryOf Sample.loanArgs) = inr rows /\
    Forall2 (fun row ln =>
               shows (Loans.isTestnet_ Sample.loanArgs) row ln /\
               getAddress Sample.w (lp_address (gl_pool row))
               = inr (lp_address (Loans.pool ln)))
            rows mapped /\
    Permutation mapped Sample.loans.
Proof.
  apply (LoansMore.getLoans_one_record_per_row
           Sample.w Sample.loanArgs St0 Sample.loans Sample.loansSt).
  - reflexivity.
  - vm_compute. reflexivity.
Defined.

Lemma getLoans_succeeds_witness :
  (exists l s', Loans.getLoans Sample.w Sample.loanArgs St0 = (inr l, s')) <->
  (exists ep rows,
     JS.whenTruthy (Loans.endpoint Sample.loanArgs) = Some ep /\
     indexLoans Sample.w (List.length (calls St0)) ep (queryOf Sample.loanArgs) = inr rows /\
     Forall (accepted Sample.w) rows).
Proof.
  apply (LoansMore.getLoans_succeeds_iff Sample.w Sample.loanArgs St0).
  reflexivity.
Defined.

Lemma getLoans_failure_witness :
  noAddress MoreSample.noEndpointArgs = false /\
  reason MoreSample.invalidArguments = None /\
  ((JS.whenTruthy (Loans.endpoint MoreSample.noEndpointArgs) = None /\
    message MoreSample.invalidArguments = "Error: Invalid arguments" /\ St0 = St0) \/
   (exists ep e0,
      JS.whenTruthy (Loans.endpoint MoreSample.noEndpointArgs) = Some ep /\
      indexLoans Sample.w (List.length (calls St0)) ep (queryOf MoreSample.noEndpointArgs)
        = inl e0 /\
      MoreSample.invalidArguments = rethrow MoreLoanProps.loansFallback e0) \/
   (exists ep pre row post e0,
      JS.whenTruthy (Loans.endpoint MoreSample.noEndpointArgs) = Some ep /\
      indexLoans Sample.w (List.length (calls St0)) ep (queryOf MoreSample.noEndpointArgs)
        = inr (pre ++ row :: post)%list /\
      Forall (accepted Sample.w) pre /\
      getAddress Sample.w (lp_address (gl_pool row)) = inl e0 /\
      MoreSample.invalidArguments = rethrow MoreLoanProps.loansFallback e0)).
Proof.
  apply (LoansMore.getLoans_failure Sample.w MoreSample.noEndpointArgs St0
           MoreSample.invalidArguments St0).
  reflexivity.
Defined.

Lemma testnet_witness :
  Forall (fun ln => Loans.tokenUri ln = EmptyString) MoreSample.testnetLoans /\
  List.length MoreSample.testnetLoans = 3%nat.
Proof.
  split; [|reflexivity].
  apply (LoansMore.getLoans_testnet_blanks_tokenUri
           Sample.w MoreSample.testnetArgs St0 MoreSample.testnetLoans MoreSample.testnetSt).
  - reflexivity.
  - vm_compute. reflexivity.
Defined.

Lemma frozen_clock_witness :
  exists ep' pools perPool,
    JS.whenTruthy (Some Sample.graph) = Some ep' /\
    indexLiquidators MoreSample.still (List.length (calls St0)) ep'
      (Loans.liquidatorsQuery Sample.alice) = inr pools /\
    Forall2 (fun p l => exists s1 s2,
               Loans.getLoans MoreSample.still (poolArgs ep' false p) s1 = (inr l, s2))
            pools perPool /\
    MoreSample.stillLiquidatable
    = List.filter (fun ln => Loans.deadline ln <=? MoreSample.stillNow)
        (List.concat perPool).
Proof.
  apply (LoansMore.getLoansToLiquidate_filters_concatenation
           MoreSample.still MoreSample.stillNow (Some Sample.graph) (Some Sample.alice)
           false Sample.alice St0 MoreSample.stillLiquidatable MoreSample.stillSt).
  - intros k. reflexivity.
  - reflexivity.
  - vm_compute. reflexivity.
Defined.

Lemma liquidation_log_witness :
  exists ep' pools,
    JS.whenTruthy (Some Sample.graph) = Some ep' /\
    indexLiquidators Sample.w (List.length (calls St0)) ep'
      (Loans.liquidatorsQuery Sample.alice) = inr pools /\
    calls Sample.liquidatableSt =
      (calls St0 ++
       Request ep' (Loans.liquidatorsQuery Sample.alice) ::
       map (fun p => Request ep' (Loans.loansByPoolQuery p))
           (List.filter (fun p => JS.truthy (Some p)) pools))%list.
Proof.
  apply (LoansMore.getLoansToLiquidate_log
           Sample.w (Some Sample.graph) (Some Sample.alice) false Sample.alice St0
           Sample.liquidatable Sample.liquidatableSt).
  - reflexivity.
  - vm_compute. reflexivity.
Defined.

Lemma liquidation_failure_witness :
  exists liquidator,
    JS.whenTruthy (Some Sample.alice) = Some liquidator /\
    reason MoreSample.invalidArguments = None /\
    ((JS.whenTruthy None = None /\
      message MoreSample.invalidArguments = "Error: Invalid arguments" /\ St0 = St0) \/
     (exists ep' e0,
        JS.whenTruthy None = Some ep' /\
        indexLiquidators Sample.w (List.length (calls St0)) ep'
          (Loans.liquidatorsQuery liquidator) = inl e0 /\
        MoreSample.invalidArguments = rethrow MoreLoanProps.loansFallback e0) \/
     (exists ep' pools p s1 s2 e0,
        JS.whenTruthy None = Some ep' /\
        indexLiquidators Sample.w (List.length (calls St0)) ep'
          (Loans.liquidatorsQuery liquidator) = inr pools /\
        In p pools /\
        Loans.getLoans Sample.w (poolArgs ep' false p) s1 = (inl e0, s2) /\
        message MoreSample.invalidArguments =
          if String.eqb (message e0) EmptyString
          then MoreLoanProps.loansFallback else message e0)).
Proof.
  apply (LoansMore.getLoansToLiquidate_failure
           Sample.w None (Some Sample.alice) false St0 MoreSample.invalidArguments St0).
  reflexivity.
Defined.

Lemma rounding_witness :
  Loans.blockTimestampOf 1700086405499 = 1700086405 /\
  Loans.blockTimestampOf 1700086405500 = 1700086406.
Proof.
  split.
  - rewrite (LoansMore.blockTimestampOf_rounds_to_nearest_second 1700086405499); [reflexivity|lia].
  - rewrite (LoansMore.blockTimestampOf_rounds_to_nearest_second 1700086405500); [reflexivity|lia].
Defined.

Lemma lateFees_window_witness :
  Loans.lateFeesAt (Loans.blockTimestampOf 1700000005499) Sample.oddLoan = 0%float.
Proof.
  rewrite (LoansMore.lateFees_start_half_a_second_late 1700000005499 Sample.oddLoan);
    [reflexivity|lia].
Defined.

Lemma enrichment_witness :
  exists provider qa ep rows merged,
    chainProvider (chainConfig Sample.w (Some 1)) = Some provider /\
    JS.whenTruthy (quoteApi (chainConfig Sample.w (Some 1))) = Some qa /\
    JS.whenTruthy (subgraphUrl (chainConfig Sample.w (Some 1))) = Some ep /\
    indexPools Sample.w (List.length (calls St0)) ep
      (Pools.poolsQuery (Sample.args (Some 1) None)) = inr rows /\
    Forall2 (fun row p => exists info admin,
               enrichedBy Sample.w (Sample.args (Some 1) None) provider qa ep row info admin /\
               mergedFrom Sample.w row info admin p) rows merged /\
    Sample.pools = JS.sort Pools.comparePools merged.
Proof.
  apply (PoolsMore.getAllpools_pools_carry_their_own_enrichment
           Sample.w (Sample.args (Some 1) None) St0 Sample.pools Sample.poolsSt).
  - reflexivity.
  - vm_compute. reflexivity.
Defined.

Lemma stable_sort_witness :
  exists ep rows merged,
    JS.whenTruthy (subgraphUrl (chainConfig Sample.w (Some 1))) = Some ep /\
    indexPools Sample.w (List.length (calls St0)) ep
      (Pools.poolsQuery (Sample.args (Some 1) None)) = inr rows /\
    Forall2 (fun row p => getAddress Sample.w (gp_address row) = inr (Pools.address p))
            rows merged /\
    Permutation merged Sample.pools /\
    forall v, List.filter (fun p => nftsOf p =? v) Sample.pools
              = List.filter (fun p => nftsOf p =? v) merged.
Proof.
  apply (PoolsMore.getAllpools_equal_counts_keep_row_order
           Sample.w (Sample.args (Some 1) None) St0 Sample.pools Sample.poolsSt).
  - reflexivity.
  - vm_compute. reflexivity.
Defined.

Lemma call_count_witness :
  exists new,
    calls Sample.poolsSt = (calls St0 ++ new)%list /\
    List.length new = 43%nat.
Proof.
  apply (PoolsMore.getAllpools_issues_fourteen_calls_per_pool
           Sample.w (Sample.args (Some 1) None) St0 Sample.pools Sample.poolsSt).
  - reflexivity.
  - vm_compute. reflexivity.
Defined.

Lemma skipOracle_witness :
  (exists new, calls MoreSample.skipSt = (calls St0 ++ new)%list /\
               Forall (fun c => isOracleCall c = false) new) /\
  (forall l, inr MoreSample.skipPools = @inr JsError _ l ->
             Forall (fun p => Pools.oraclePrice p = EmptyString) l).
Proof.
  apply (PoolsMore.getAllpools_skipOracle_never_asks_the_oracle
           Sample.w MoreSample.skipArgs St0 (inr MoreSample.skipPools) MoreSample.skipSt).
  - reflexivity.
  - vm_compute. reflexivity.
Defined.

Lemma interest_bounds_witness :
  Pools.minimumInterest
    (Pools.adminInfoOf 31536000 Sample.alice Sample.poolA MoreSample.reads [])
  = "3" /\
  Pools.maximumInterest
    (Pools.adminInfoOf 31536000 Sample.alice Sample.poolA MoreSample.reads [])
  = "10".
Proof.
  destruct (PoolsMore.maximumInterest_adds_two_truncated_rates
              31536000 Sample.alice Sample.poolA MoreSample.reads [])
    as [H1 H2].
  - reflexivity.
  - reflexivity.
  - rewrite H1, H2. split; reflexivity.
Defined.

Lemma config_failure_witness :
  Pools.getAllpools Sample.w (Sample.args (Some 5) None) St0
  = (inl (Error_ "Invalid arguments"), St0) /\
  calls St0 = calls St0.
Proof.
  apply (proj2 (PoolsMore.getAllpools_fails_without_a_call_iff
                  Sample.w (Sample.args (Some 5) None) St0
                  (Error_ "Invalid arguments") St0)).
  repeat split; reflexivity.
Defined.

Lemma merged_rate_witness :
  Pools.maxVariableInterestPerEthPerSecond Sample.bare = "3805175037".
Proof.
  rewrite (PoolsMore.merged_maxVariableInterest_includes_minimum
             Sample.w [] [] 0%nat (Sample.graphPool "A" Sample.poolA) St0 Sample.bare St0).
  - reflexivity.
  - reflexivity.
  - vm_compute. reflexivity.
Defined.

Lemma validAmount_witness :
  Deposit.validAmount (Some ".") = true /\ Deposit.validAmount (Some "1,5") = true.
Proof.
  split.
  - apply (proj2 (DepositMore.validAmount_iff_digits_separator_digits (Some "."))).
    exists ".". split; [reflexivity|]. split; [discriminate|].
    exists "", ".", "". repeat split; auto.
  - apply (proj2 (DepositMore.validAmount_iff_digits_separator_digits (Some "1,5"))).
    exists "1,5". split; [reflexivity|]. split; [discriminate|].
    exists "1", ",", "5". repeat split; auto.
Defined.

Lemma prepare_witness :
  exists amount,
    Deposit.amountToDeposit MoreSample.deposit = Some amount /\
    Deposit.value (Deposit.prepare MoreSample.surroundings MoreSample.deposit)
    = Deposit.formatAmountToDepositOrWithdraw MoreSample.surroundings amount.
Proof.
  apply (proj2 (DepositMore.prepare_enabled_iff MoreSample.surroundings MoreSample.deposit)).
  vm_compute. reflexivity.
Defined.

Lemma callbacks_witness :
  (forall id_,
     In (Deposit.Dismiss (Some id_))
        (Deposit.effects (run MoreSample.surroundings MoreSample.events MoreSample.freshPage)) ->
     opened (run MoreSample.surroundings MoreSample.events MoreSample.freshPage) id_) /\
  List.length
    (List.filter isInvalidation
       (Deposit.effects (run MoreSample.surroundings MoreSample.events MoreSample.freshPage)))
  = List.length (List.filter isSettled MoreSample.events).
Proof.
  apply (DepositMore.callbacks_dismiss_only_opened_toasts
           MoreSample.surroundings MoreSample.events MoreSample.freshPage).
  - reflexivity.
  - reflexivity.
Defined.

End MoreWitnesses.
